(** * GymSphere streak service: a shallow embedding of
    [services/streak_service.py] and the properties of its three functions
    [estimate_transformation_days], [calculate_streaks] and
    [compute_streaks].

    Conventions of the embedding.
    - Python [int] is [Z]; Python [float] is Rocq's primitive binary64
      [float] (both are IEEE 754 binary64, round to nearest even); the
      weights are floats, as annotated ([weight: float]).
    - [None] is [option]'s [None]; an exception is the [Raises] outcome.
    - A calendar date is its day ordinal, a timestamp is a number: both [Z].
    - The database session is threaded explicitly: a function that may
      write takes the [Db] and returns the [Db] after the call, and the
      mutable [User] object is returned next to the result. *)

From Stdlib Require Import ZArith Lia Floats Ascii String Reals Lra.
From stdpp Require Import base option list strings gmap sorting.

#[local] Set Warnings "-inexact-float".
#[local] Open Scope Z_scope.

(** ** Data model (the ORM classes of [models], as far as the service
    reads and writes them) *)

(** [workout_streak] and [diet_streak] are nullable integer columns: the
    dashboard route reads them as [current_user.workout_streak or 0]. *)
Module User.
Record t := mk {
  id : Z;
  workout_streak : option Z;
  diet_streak : option Z
}.
End User.

Module UserPlan.
Record t := mk {
  id : Z;
  user_id : Z;
  created_at : Z
}.
End UserPlan.

Module DailyPlanEntry.
Record t := mk {
  plan_id : Z;
  date : Z;
  is_exercise_day : bool;
  is_exercise_completed : bool;
  is_diet_completed : bool
}.
End DailyPlanEntry.

(** The three tables and the number of [db.session.commit()] calls made so
    far.  User objects handed to the service are rows of [user_table]
    (session-attached), so a commit flushes the mutated object to its row. *)
Record Db := mkDb {
  user_table : gmap Z User.t;
  plan_table : list UserPlan.t;
  entry_table : list DailyPlanEntry.t;
  commits : nat
}.

(** The returned dict [{"workout": w, "diet": d}]. *)
Record Streaks := mkStreaks { workout : Z; diet : Z }.

(** ** The queries *)

(** [order_by(UserPlan.created_at.desc())] and [order_by(DailyPlanEntry.date.desc())] *)
Definition newer_plan (p q : UserPlan.t) : Prop :=
  UserPlan.created_at q ≤ UserPlan.created_at p.
Definition newer_entry (e f : DailyPlanEntry.t) : Prop :=
  DailyPlanEntry.date f ≤ DailyPlanEntry.date e.

#[local] Instance newer_plan_dec : RelDecision newer_plan.
Proof. intros p q. unfold newer_plan. apply _. Defined.
#[local] Instance newer_entry_dec : RelDecision newer_entry.
Proof. intros e f. unfold newer_entry. apply _. Defined.

(** [UserPlan.query.filter_by(user_id=uid).order_by(UserPlan.created_at.desc()).first()] *)
Definition latest_plan (db : Db) (uid : Z) : option UserPlan.t :=
  head (merge_sort newer_plan
          (filter (λ p, UserPlan.user_id p = uid) (plan_table db))).

(** [DailyPlanEntry.query.filter_by(plan_id=pid).filter(DailyPlanEntry.date <= today)
      .order_by(DailyPlanEntry.date.desc()).all()] *)
Definition entries_up_to (db : Db) (pid today : Z) : list DailyPlanEntry.t :=
  merge_sort newer_entry
    (filter (λ e, DailyPlanEntry.plan_id e = pid ∧ DailyPlanEntry.date e ≤ today)
       (entry_table db)).

(** [User.query.get(user_id)] *)
Definition user_get (db : Db) (user_id : Z) : option User.t :=
  user_table db !! user_id.

(** [user.workout_streak = w; user.diet_streak = d; db.session.commit()]:
    the mutated object and the database after the flush. *)
Definition set_streaks (user : User.t) (w d : Z) : User.t :=
  User.mk (User.id user) (Some w) (Some d).

Definition commit_user (user : User.t) (db : Db) : Db :=
  mkDb (<[User.id user := user]> (user_table db))
       (plan_table db) (entry_table db) (S (commits db)).

(** ** [calculate_streaks] *)

(** Line 103: [(e.is_exercise_day and e.is_exercise_completed) or (not e.is_exercise_day)] *)
Definition is_success_w (e : DailyPlanEntry.t) : bool :=
  (DailyPlanEntry.is_exercise_day e && DailyPlanEntry.is_exercise_completed e)
  || negb (DailyPlanEntry.is_exercise_day e).

(** Lines 98-113: [for i in range(start_check_idx, len(entries))], run on
    the entries from [start_check_idx] on, with the running [w_streak]. *)
Fixpoint workout_loop (es : list DailyPlanEntry.t) (w_streak : Z) : Z :=
  match es with
  | [] => w_streak
  | e :: es' =>
      if is_success_w e then workout_loop es' (w_streak + 1) else w_streak
  end.

(** Lines 130-135: the diet loop, with the running [d_streak_count]. *)
Fixpoint diet_loop (es : list DailyPlanEntry.t) (d_streak_count : Z) : Z :=
  match es with
  | [] => d_streak_count
  | e :: es' =>
      if DailyPlanEntry.is_diet_completed e
      then diet_loop es' (d_streak_count + 1) else d_streak_count
  end.

(** Lines 79-135 on a non-empty [entries] whose element 0 is [first_entry]. *)
Definition scan_streaks (today : Z) (first_entry : DailyPlanEntry.t)
    (entries : list DailyPlanEntry.t) : Z * Z :=
  let is_today := bool_decide (DailyPlanEntry.date first_entry = today) in
  let '(w_streak, start_check_idx) :=
    if is_today then
      let workout_done := is_success_w first_entry in
      ((if workout_done then 1 else 0), 1%nat)
    else (0, 0%nat) in
  let w_streak := workout_loop (drop start_check_idx entries) w_streak in
  let w_streak_temp := w_streak in
  let d_streak_count :=
    if is_today && DailyPlanEntry.is_diet_completed first_entry then 1 else 0 in
  let d_streak_count :=
    diet_loop (drop (if is_today then 1%nat else 0%nat) entries) d_streak_count in
  (w_streak_temp, d_streak_count).

Definition no_streaks : Streaks := mkStreaks 0 0.

(** [calculate_streaks(user)] at UTC date [today]: the returned dict, the
    user object after the call and the database after the call. *)
Definition calculate_streaks (today : Z) (user : option User.t) (db : Db)
    : Streaks * option User.t * Db :=
  match user with
  | None => (no_streaks, None, db)
  | Some u =>
      match latest_plan db (User.id u) with
      | None => (no_streaks, Some u, db)
      | Some plan =>
          let entries := entries_up_to db (UserPlan.id plan) today in
          match entries with
          | [] => (no_streaks, Some u, db)
          | first_entry :: _ =>
              let '(w_streak_temp, d_streak_count) :=
                scan_streaks today first_entry entries in
              if bool_decide (Some w_streak_temp ≠ User.workout_streak u
                              ∨ Some d_streak_count ≠ User.diet_streak u)
              then
                let u' := set_streaks u w_streak_temp d_streak_count in
                (mkStreaks w_streak_temp d_streak_count, Some u', commit_user u' db)
              else (mkStreaks w_streak_temp d_streak_count, Some u, db)
          end
      end
  end.

(** [compute_streaks(user_id, plan_id)] *)
Definition compute_streaks (today : Z) (user_id plan_id : Z) (db : Db)
    : Streaks * option User.t * Db :=
  let user := user_get db user_id in
  calculate_streaks today user db.

(** ** [estimate_transformation_days] *)

(** The exceptions [int(x)] raises on a float that is no number or is
    infinite. *)
Inductive exn := ValueError | OverflowError.

Inductive outcome (A : Type) :=
  | Returns (a : A)
  | Raises (e : exn).
Arguments Returns {A} a.
Arguments Raises {A} e.

(** Python's [int(x)] on a float: truncation towards zero of [± m * 2^e];
    [ValueError] on NaN, [OverflowError] on an infinity. *)
Definition int_of_float (x : float) : outcome Z :=
  match Prim2SF x with
  | S754_nan => Raises ValueError
  | S754_infinity _ => Raises OverflowError
  | S754_zero _ => Returns 0
  | S754_finite s m e => Returns (cond_Zopp s (Z.shiftl (Zpos m) e))
  end.

(** Lines 23-34: the rate table, on the lower-cased goal. *)
Definition rate_per_week (goal_lower : string) : float :=
  if bool_decide (goal_lower ∈ ["fat_loss"; "lose"; "weight_loss"]) then 0.55%float
  else if bool_decide (goal_lower ∈ ["muscle_gain"; "gain"; "bulk"]) then 0.3%float
  else if bool_decide (goal_lower ∈ ["recomposition"; "recomp"]) then 0.2%float
  else 0.4%float.

Section Estimator.

(** [str.lower] is Python's own (Unicode aware); the estimator is embedded
    over any such function. *)
Variable lower : string → string.

Definition estimate_transformation_days
    (weight target : option float) (goal : option string) : outcome Z :=
  match weight, target with
  | Some weight, Some target =>
      let delta := (target - weight)%float in
      let kg_to_change := abs delta in
      if (kg_to_change <? 0.1)%float then Returns 0
      else
        let goal_lower := lower (default "" goal) in
        let weeks_needed := (kg_to_change / rate_per_week goal_lower)%float in
        match int_of_float (weeks_needed * 7)%float with
        | Returns n => Returns (Z.max 7 n)
        | Raises e => Raises e
        end
  | _, _ => Returns 0
  end.

End Estimator.

(** [str.lower] on ASCII text: the letters [A]-[Z] move to [a]-[z], every
    other character stays. *)
Definition ascii_lower (c : ascii) : ascii :=
  let n := nat_of_ascii c in
  if ((65 <=? n) && (n <=? 90))%nat then ascii_of_nat (n + 32) else c.

Fixpoint str_lower (s : string) : string :=
  match s with
  | EmptyString => EmptyString
  | String c s' => String (ascii_lower c) (str_lower s')
  end.

(** ** Definitions that follow the specification's words *)

(** "the count of consecutive successful entries ..., stopping at the first
    unsuccessful one" *)
Fixpoint consecutive {A : Type} (ok : A → bool) (l : list A) : nat :=
  match l with
  | [] => 0
  | x :: l' => if ok x then S (consecutive ok l') else 0
  end.

(** "floor": the largest integer below a finite float [± m * 2^e]; none
    for NaN and the infinities. *)
Definition float_floor (x : float) : option Z :=
  match Prim2SF x with
  | S754_zero _ => Some 0
  | S754_finite s m e => Some (Z.shiftl (cond_Zopp s (Zpos m)) e)
  | S754_nan | S754_infinity _ => None
  end.

(** The flags of an entry, and whether the newest loaded entry is today's:
    all that "gap invisibility" lets the streaks depend on. *)
Definition flags (e : DailyPlanEntry.t) : bool * bool * bool :=
  (DailyPlanEntry.is_exercise_day e,
   DailyPlanEntry.is_exercise_completed e,
   DailyPlanEntry.is_diet_completed e).

Definition newest_is_today (today : Z) (entries : list DailyPlanEntry.t) : bool :=
  match entries with
  | [] => false
  | first_entry :: _ => bool_decide (DailyPlanEntry.date first_entry = today)
  end.

(** ** The binary64 arithmetic behind [/] and [*]

    [Prim2SF] maps a float to its sign, mantissa and exponent, and the
    Standard Library specifies each primitive operation as a function on
    these ([SFdiv], [SFmul], ...), ending in [binary_round_aux].  The
    definitions below give those functions a meaning over the reals. *)

Definition bpow (e : Z) : R := powerRZ 2 e.

(** Position of a scaled value [t] against the integer [shr_m] and its
    round and sticky bits. *)
Definition inbetween (t : R) (mrs : shr_record) : Prop :=
  match shr_r mrs, shr_s mrs with
  | false, false => t = IZR (shr_m mrs)
  | false, true => (IZR (shr_m mrs) < t < IZR (shr_m mrs) + / 2)%R
  | true, false => t = (IZR (shr_m mrs) + / 2)%R
  | true, true => (IZR (shr_m mrs) + / 2 < t < IZR (shr_m mrs) + 1)%R
  end.

(** [x] in units of [2^e]. *)
Definition scaled (x : R) (e : Z) : R := (x * bpow (- e))%R.

(** A mantissa and exponent in canonical position for binary64: at most 53
    bits, exponent at least [emin], and 53 bits exactly above [emin]. *)
Definition canonic (m e : Z) : Prop :=
  0 ≤ m < 2 ^ 53 ∧ -1074 ≤ e ∧ (-1074 < e → 2 ^ 52 ≤ m).

(** The mantissa after rounding to nearest, ties to even. *)
Definition rounded (mrs : shr_record) : Z :=
  round_nearest_even (shr_m mrs) (loc_of_shr_record mrs).

(** The float built from a rounded mantissa [n <= 2^53] at exponent [e]. *)
Definition pack (s : bool) (n e : Z) : spec_float :=
  if n =? 0 then S754_zero s
  else
    let m := if n =? 2 ^ 53 then 2 ^ 52 else n in
    let e := if n =? 2 ^ 53 then e + 1 else e in
    if e <=? 971 then S754_finite s (Z.to_pos m) e else S754_infinity s.

(** The real value of a finite float (0 for the others). *)
Definition SF2R (x : spec_float) : R :=
  match x with
  | S754_finite s m e =>
      if s then (- (IZR (Z.pos m) * bpow e))%R else (IZR (Z.pos m) * bpow e)%R
  | _ => 0%R
  end.

Definition finite_nonneg (x : spec_float) : Prop :=
  match x with
  | S754_zero false | S754_finite false _ _ => True
  | _ => False
  end.

(** Zero, positive finite or plus infinity. *)
Definition nonneg_num (x : spec_float) : Prop :=
  x = S754_infinity false ∨ finite_nonneg x.

(** The order of the non-negative floats, plus infinity on top. *)
Inductive sf_le : spec_float → spec_float → Prop :=
  | sf_le_inf a : nonneg_num a → sf_le a (S754_infinity false)
  | sf_le_fin a b :
      finite_nonneg a → finite_nonneg b → (SF2R a <= SF2R b)%R → sf_le a b.

(** The mantissa and exponent [pack] ends with. *)
Definition pack_m (n : Z) : Z := if n =? 2 ^ 53 then 2 ^ 52 else n.
Definition pack_e (n e : Z) : Z := if n =? 2 ^ 53 then e + 1 else e.

(** Not a number, or a number that is not negative. *)
Definition nan_or_nonneg (x : spec_float) : Prop :=
  x = S754_nan ∨ nonneg_num x.

(** ** [routes/core.py]: the routes with logic of their own

    [index], [update_progress] and [progress_page].  The bodies are
    embedded as they run once [login_required] has let the request
    through, with [current_user.id] as [current_user_id]. *)

(** A Python value as a session or a template holds it; [PyOther] is any
    other object, with its truth value. *)
Inductive pyval :=
  | PyNone
  | PyBool (b : bool)
  | PyInt (n : Z)
  | PyFloat (x : float)
  | PyStr (s : string)
  | PyOther (truth : bool).

(** Python's truth value of an object. *)
Definition truthy (v : pyval) : bool :=
  match v with
  | PyNone => false
  | PyBool b => b
  | PyInt n => negb (n =? 0)
  | PyFloat x => negb (x =? 0)%float
  | PyStr s => negb (bool_decide (s = ""))
  | PyOther truth => truth
  end.

(** [redirect(url_for(endpoint))] and [render_template(template)]. *)
Inductive response :=
  | Redirect (endpoint : string)
  | Render (template : string).

(** [index()], on the session dict: the response and the session after. *)
Definition index (session : gmap string pyval) : response * gmap string pyval :=
  if negb (from_option truthy false (session !! "intro_shown"))
  then (Redirect "core.intro", <["intro_shown" := PyBool true]> session)
  else (Render "index.html", session).

Module UserProgress.
Record t := mk {
  user_id : Z;
  weight : float;
  logged_at : Z
}.
End UserProgress.

Module WaterLog.
Record t := mk {
  user_id : Z;
  date : Z;
  amount_ml : Z
}.
End WaterLog.

Module SleepLog.
Record t := mk {
  user_id : Z;
  date : Z;
  hours : pyval;
  quality : pyval
}.
End SleepLog.

(** The tables the two progress routes use, and the commits made. *)
Record CoreDb := mkCoreDb {
  progress_table : list UserProgress.t;
  water_table : list WaterLog.t;
  sleep_table : list SleepLog.t;
  core_commits : nat
}.

(** [order_by(UserProgress.logged_at.asc())] *)
Definition logged_before (a b : UserProgress.t) : Prop :=
  UserProgress.logged_at a ≤ UserProgress.logged_at b.

#[local] Instance logged_before_dec : RelDecision logged_before.
Proof. intros a b. unfold logged_before. apply _. Defined.

(** The keyword arguments [progress.html] is rendered with. *)
Record ProgressPage := mkProgressPage {
  progress_labels : list string;
  progress_values : list float;
  hydration_current : Z;
  hydration_goal : Z;
  sleep_hours : pyval;
  sleep_quality : pyval
}.

Section CoreRoutes.

(** Python's own [float(s)] ([None] where it raises [ValueError]) and
    [d.strftime("%Y-%m-%d")]. *)
Variable py_float : string → option float.
Variable strftime : Z → string.

(** [update_progress()] at UTC time [now], on the posted form. *)
Definition update_progress (now current_user_id : Z) (form : gmap string string)
    (db : CoreDb) : outcome response * CoreDb :=
  let weight := form !! "weight" in
  match weight with
  | Some w =>
      if bool_decide (w = "") then (Returns (Redirect "core.progress_page"), db)
      else
        match py_float w with
        | None => (Raises ValueError, db)
        | Some x =>
            let entry := UserProgress.mk current_user_id x now in
            (Returns (Redirect "core.progress_page"),
             mkCoreDb (progress_table db ++ [entry]) (water_table db)
                      (sleep_table db) (S (core_commits db)))
        end
  | None => (Returns (Redirect "core.progress_page"), db)
  end.

(** [progress_page()] at UTC date [today_date]. *)
Definition progress_page (today_date current_user_id : Z) (db : CoreDb)
    : ProgressPage :=
  let progress_logs :=
    merge_sort logged_before
      (filter (λ l, UserProgress.user_id l = current_user_id) (progress_table db)) in
  let progress_labels := (λ log, strftime (UserProgress.logged_at log)) <$> progress_logs in
  let progress_values := UserProgress.weight <$> progress_logs in
  let water_logs :=
    filter (λ l, WaterLog.user_id l = current_user_id ∧ WaterLog.date l = today_date)
      (water_table db) in
  let hydration_current := foldl Z.add 0 (WaterLog.amount_ml <$> water_logs) in
  let hydration_goal := 3000 in
  let sleep_log :=
    head (filter (λ l, SleepLog.user_id l = current_user_id ∧ SleepLog.date l = today_date)
            (sleep_table db)) in
  mkProgressPage progress_labels progress_values hydration_current hydration_goal
    (match sleep_log with Some l => SleepLog.hours l | None => PyInt 0 end)
    (match sleep_log with Some l => SleepLog.quality l | None => PyStr "-" end).

End CoreRoutes.

(** Stand-ins for the two Python functions, good for the examples. *)
Definition ex_py_float (s : string) : option float :=
  if bool_decide (s = "72.5") then Some 72.5%float else None.

Definition ex_strftime (d : Z) : string :=
  if bool_decide (d = 19000) then "2022-01-08" else "2022-01-09".

Definition ex_core_db : CoreDb :=
  mkCoreDb [UserProgress.mk 1 74%float 19001;
            UserProgress.mk 2 90%float 19000;
            UserProgress.mk 1 75%float 19000]
           [WaterLog.mk 1 19001 250; WaterLog.mk 2 19001 500;
            WaterLog.mk 1 19000 300; WaterLog.mk 1 19001 400]
           [] 0.

(** The three components of what [calculate_streaks] returns. *)
Definition streaks_of (r : Streaks * option User.t * Db) : Streaks := r.1.1.
Definition user_after (r : Streaks * option User.t * Db) : option User.t := r.1.2.
Definition db_after (r : Streaks * option User.t * Db) : Db := r.2.

(** ** Example data: the two scenarios of the specification's section 8 *)

(** Today is day 100; user 1 owns plans 10 (older) and 11 (latest). *)
Definition ex_user : User.t := User.mk 1 None None.

Definition ex_db_workout : Db :=
  mkDb {[ 1 := ex_user ]}
       [UserPlan.mk 10 1 500; UserPlan.mk 11 1 600; UserPlan.mk 12 2 700]
       [DailyPlanEntry.mk 11 98 true true false;
        DailyPlanEntry.mk 11 100 true false false;
        DailyPlanEntry.mk 10 99 true false false;
        DailyPlanEntry.mk 11 101 true false false;
        DailyPlanEntry.mk 11 99 false false true] 0.

Definition ex_db_diet : Db :=
  mkDb {[ 1 := ex_user ]}
       [UserPlan.mk 11 1 600]
       [DailyPlanEntry.mk 11 100 false false false;
        DailyPlanEntry.mk 11 99 false false true;
        DailyPlanEntry.mk 11 98 false false false] 0.

(** A database in which user 1 has a plan and no entry yet, and one in
    which user 1 has no plan. *)
Definition ex_db_no_entries : Db :=
  mkDb {[ 1 := ex_user ]} [UserPlan.mk 11 1 600]
       [DailyPlanEntry.mk 11 101 true false false] 0.

Definition ex_db_no_plan : Db :=
  mkDb {[ 1 := ex_user ]} [UserPlan.mk 12 2 700] [] 0.

(** The plan of [ex_db_diet] with a week missing between the last two
    entries: the flags are those of [ex_db_diet], and so are the counts. *)
Definition ex_db_gap : Db :=
  mkDb {[ 1 := ex_user ]}
       [UserPlan.mk 11 1 600]
       [DailyPlanEntry.mk 11 100 false false false;
        DailyPlanEntry.mk 11 99 false false true;
        DailyPlanEntry.mk 11 91 false false false] 0.

(** * Properties of [calculate_streaks] and [compute_streaks] *)

Lemma workout_loop_count es w :
  workout_loop es w = w + Z.of_nat (consecutive is_success_w es).
Proof.
  revert w. induction es as [|e es IH]; intros w; simpl.
  - lia.
  - destruct (is_success_w e); [rewrite IH|]; lia.
Qed.

Lemma diet_loop_count es d :
  diet_loop es d = d + Z.of_nat (consecutive DailyPlanEntry.is_diet_completed es).
Proof.
  revert d. induction es as [|e es IH]; intros d; simpl.
  - lia.
  - destruct (DailyPlanEntry.is_diet_completed e); [rewrite IH|]; lia.
Qed.

Lemma consecutive_le_length {A} (ok : A → bool) l :
  (consecutive ok l ≤ length l)%nat.
Proof. induction l as [|x l IH]; simpl; [lia|]. destruct (ok x); lia. Qed.

(** The counts depend on the entries through [ok] alone. *)
Lemma consecutive_ext {A B} (f : A → B) (okA : A → bool) (okB : B → bool) l :
  (∀ x, okA x = okB (f x)) → consecutive okA l = consecutive okB (f <$> l).
Proof.
  intros Hf. induction l as [|x l IH]; [done|].
  rewrite fmap_cons. simpl. rewrite <- Hf, IH. done.
Qed.

(** [scan_streaks] in closed form. *)
Lemma scan_streaks_today today first_entry older :
  DailyPlanEntry.date first_entry = today →
  scan_streaks today first_entry (first_entry :: older) =
    ((if is_success_w first_entry then 1 else 0)
       + Z.of_nat (consecutive is_success_w older),
     (if DailyPlanEntry.is_diet_completed first_entry then 1 else 0)
       + Z.of_nat (consecutive DailyPlanEntry.is_diet_completed older)).
Proof.
  intros Hd. unfold scan_streaks. rewrite bool_decide_eq_true_2 by done.
  simpl. rewrite workout_loop_count, diet_loop_count. done.
Qed.

Lemma scan_streaks_past today first_entry older :
  DailyPlanEntry.date first_entry ≠ today →
  scan_streaks today first_entry (first_entry :: older) =
    (Z.of_nat (consecutive is_success_w (first_entry :: older)),
     Z.of_nat (consecutive DailyPlanEntry.is_diet_completed (first_entry :: older))).
Proof.
  intros Hd. unfold scan_streaks. rewrite bool_decide_eq_false_2 by done.
  cbn [andb drop]. rewrite workout_loop_count, diet_loop_count. done.
Qed.

(** What the full path returns, in terms of [scan_streaks]. *)
Lemma calculate_streaks_full today u db plan first_entry older :
  latest_plan db (User.id u) = Some plan →
  entries_up_to db (UserPlan.id plan) today = first_entry :: older →
  streaks_of (calculate_streaks today (Some u) db) =
    mkStreaks (scan_streaks today first_entry (first_entry :: older)).1
              (scan_streaks today first_entry (first_entry :: older)).2.
Proof.
  intros Hp He. unfold calculate_streaks. rewrite Hp. cbn zeta. rewrite He.
  destruct (scan_streaks _ _ _) as [w d]. case_bool_decide; done.
Qed.

(** The query results are what their SQL says: newest first, and only
    entries of the plan dated today or earlier. *)
Lemma entries_up_to_sorted db pid today :
  Sorted newer_entry (entries_up_to db pid today).
Proof.
  apply Sorted_merge_sort. intros e f. unfold newer_entry. lia.
Qed.

Lemma entries_up_to_elem db pid today e :
  e ∈ entries_up_to db pid today ↔
  e ∈ entry_table db ∧ DailyPlanEntry.plan_id e = pid ∧ DailyPlanEntry.date e ≤ today.
Proof.
  unfold entries_up_to. rewrite merge_sort_Permutation, list_elem_of_filter.
  tauto.
Qed.

(** A commit leaves the plans and the entries alone. *)
Lemma latest_plan_commit u db uid :
  latest_plan (commit_user u db) uid = latest_plan db uid.
Proof. done. Qed.

Lemma entries_up_to_commit u db pid today :
  entries_up_to (commit_user u db) pid today = entries_up_to db pid today.
Proof. done. Qed.

(** C1. Workout streak, today pending: when the newest loaded entry is
    today's, an exercise day not completed, the workout streak is the number
    of consecutive successful entries among the older ones, newest first,
    up to the first unsuccessful one; today's entry neither counts nor
    breaks. *)
Theorem workout_streak_pending_today today u db plan first_entry older :
  latest_plan db (User.id u) = Some plan →
  entries_up_to db (UserPlan.id plan) today = first_entry :: older →
  DailyPlanEntry.date first_entry = today →
  DailyPlanEntry.is_exercise_day first_entry = true →
  DailyPlanEntry.is_exercise_completed first_entry = false →
  workout (streaks_of (calculate_streaks today (Some u) db))
  = Z.of_nat (consecutive is_success_w older).
Proof.
  intros Hp He Hd Hday Hdone.
  rewrite (calculate_streaks_full _ _ _ _ _ _ Hp He).
  rewrite scan_streaks_today by done. cbn [workout fst].
  unfold is_success_w at 1. rewrite Hday, Hdone. simpl. lia.
Qed.

(** The specification's scenario: today an exercise day not completed,
    yesterday a rest day, the day before a completed exercise day. *)
Lemma workout_streak_pending_today_example :
  workout (streaks_of (calculate_streaks 100 (Some ex_user) ex_db_workout)) = 2.
Proof.
  rewrite (workout_streak_pending_today 100 ex_user ex_db_workout
             (UserPlan.mk 11 1 600)
             (DailyPlanEntry.mk 11 100 true false false)
             [DailyPlanEntry.mk 11 99 false false true;
              DailyPlanEntry.mk 11 98 true true false]);
    reflexivity.
Defined.

(** C2. Diet streak, today pending: when the newest loaded entry is today's
    and its diet is not completed, the diet streak is the number of
    consecutive diet-completed entries among the older ones (from index 1
    on), up to the first one not completed. *)
Theorem diet_streak_pending_today today u db plan first_entry older :
  latest_plan db (User.id u) = Some plan →
  entries_up_to db (UserPlan.id plan) today = first_entry :: older →
  DailyPlanEntry.date first_entry = today →
  DailyPlanEntry.is_diet_completed first_entry = false →
  diet (streaks_of (calculate_streaks today (Some u) db))
  = Z.of_nat (consecutive DailyPlanEntry.is_diet_completed (drop 1 (first_entry :: older))).
Proof.
  intros Hp He Hd Hdiet.
  rewrite (calculate_streaks_full _ _ _ _ _ _ Hp He).
  rewrite scan_streaks_today by done. cbn [diet snd].
  rewrite Hdiet. simpl drop. rewrite drop_0. lia.
Qed.

(** The specification's scenario: diet not completed today, completed
    yesterday, not completed the day before. *)
Lemma diet_streak_pending_today_example :
  diet (streaks_of (calculate_streaks 100 (Some ex_user) ex_db_diet)) = 1.
Proof.
  rewrite (diet_streak_pending_today 100 ex_user ex_db_diet
             (UserPlan.mk 11 1 600)
             (DailyPlanEntry.mk 11 100 false false false)
             [DailyPlanEntry.mk 11 99 false false true;
              DailyPlanEntry.mk 11 98 false false false]);
    reflexivity.
Defined.

(** C4. Conditional persistence: on the full path the user object gets both
    computed counts and one commit is made when the computed pair differs
    from the stored pair; when the pair is the stored one, the object and
    the database are the ones before the call. *)
Theorem conditional_persistence today u db plan first_entry older :
  latest_plan db (User.id u) = Some plan →
  entries_up_to db (UserPlan.id plan) today = first_entry :: older →
  let r := calculate_streaks today (Some u) db in
  let w := workout (streaks_of r) in
  let d := diet (streaks_of r) in
  (w, d) = scan_streaks today first_entry (first_entry :: older)
  ∧ ((Some w, Some d) ≠ (User.workout_streak u, User.diet_streak u) →
       user_after r = Some (User.mk (User.id u) (Some w) (Some d))
       ∧ user_table (db_after r) !! User.id u
         = Some (User.mk (User.id u) (Some w) (Some d))
       ∧ plan_table (db_after r) = plan_table db
       ∧ entry_table (db_after r) = entry_table db
       ∧ commits (db_after r) = S (commits db))
  ∧ ((Some w, Some d) = (User.workout_streak u, User.diet_streak u) →
       user_after r = Some u ∧ db_after r = db).
Proof.
  intros Hp He. unfold calculate_streaks. rewrite Hp. cbn zeta. rewrite He.
  destruct (scan_streaks _ _ _) as [w d].
  case_bool_decide as Hne; cbn.
  - split; [done|]. split.
    + intros _. rewrite lookup_insert_eq. done.
    + intros [= Hw Hd]. destruct Hne; congruence.
  - split; [done|]. split.
    + intros Hneq. destruct Hneq.
      destruct (decide (Some w = User.workout_streak u)) as [Hw|Hw];
        [|destruct Hne; by left].
      destruct (decide (Some d = User.diet_streak u)) as [Hd|Hd];
        [|destruct Hne; by right].
      congruence.
    + done.
Qed.

(** On the example database the stored pair is empty, so the first call
    writes the counts 2 and 1 and commits once. *)
Lemma conditional_persistence_example :
  let r := calculate_streaks 100 (Some ex_user) ex_db_workout in
  user_after r = Some (User.mk 1 (Some 2) (Some 1))
  ∧ commits (db_after r) = 1%nat.
Proof.
  pose proof (conditional_persistence 100 ex_user ex_db_workout
                (UserPlan.mk 11 1 600)
                (DailyPlanEntry.mk 11 100 true false false)
                [DailyPlanEntry.mk 11 99 false false true;
                 DailyPlanEntry.mk 11 98 true true false]
                eq_refl eq_refl) as (_ & Hwrite & _).
  destruct Hwrite as (Hu & _ & _ & _ & Hc); [discriminate|].
  split; [exact Hu | exact Hc].
Defined.

(** C5. Absent input: without a user, without a plan, or with no entry
    dated today or earlier, the result is 0 and 0, the user object is the
    one passed and the database (commit count included) is untouched. *)
Theorem absent_input_defaults today db :
  calculate_streaks today None db = (no_streaks, None, db)
  ∧ (∀ u, latest_plan db (User.id u) = None →
          calculate_streaks today (Some u) db = (no_streaks, Some u, db))
  ∧ (∀ u plan, latest_plan db (User.id u) = Some plan →
          entries_up_to db (UserPlan.id plan) today = [] →
          calculate_streaks today (Some u) db = (no_streaks, Some u, db)).
Proof.
  split; [done|]. split.
  - intros u Hp. unfold calculate_streaks. rewrite Hp. done.
  - intros u plan Hp He. unfold calculate_streaks. rewrite Hp. cbn zeta.
    rewrite He. done.
Qed.

Lemma absent_input_defaults_example :
  calculate_streaks 100 (Some ex_user) ex_db_no_plan
    = (mkStreaks 0 0, Some ex_user, ex_db_no_plan)
  ∧ calculate_streaks 100 (Some ex_user) ex_db_no_entries
    = (mkStreaks 0 0, Some ex_user, ex_db_no_entries).
Proof.
  split.
  - apply (proj1 (proj2 (absent_input_defaults 100 ex_db_no_plan))).
    reflexivity.
  - apply (proj2 (proj2 (absent_input_defaults 100 ex_db_no_entries))
             ex_user (UserPlan.mk 11 1 600)); reflexivity.
Defined.

(** C6. Idempotence: a second call on the same day, on the user object and
    the database the first call left, returns the same counts and changes
    nothing: no write, no commit. *)
Theorem recomputation_idempotent today user db :
  let r1 := calculate_streaks today user db in
  let r2 := calculate_streaks today (user_after r1) (db_after r1) in
  streaks_of r2 = streaks_of r1
  ∧ user_after r2 = user_after r1
  ∧ db_after r2 = db_after r1.
Proof.
  destruct user as [u|]; [|done].
  unfold calculate_streaks.
  destruct (latest_plan db (User.id u)) as [plan|] eqn:Hp; cbn zeta.
  2:{ cbn. rewrite Hp. done. }
  destruct (entries_up_to db (UserPlan.id plan) today) as [|e es] eqn:He.
  { cbn. rewrite Hp, He. done. }
  destruct (scan_streaks today e (e :: es)) as [w d] eqn:Hs.
  case_bool_decide as Hne; cbn [streaks_of user_after db_after fst snd].
  - cbn [set_streaks User.id].
    rewrite latest_plan_commit, Hp, entries_up_to_commit, He, Hs.
    rewrite bool_decide_eq_false_2; [done|]. cbn. intros [?|?]; done.
  - rewrite Hp, He, Hs. rewrite bool_decide_eq_false_2 by done. done.
Qed.

Lemma streaks_from_flags today1 today2 e1 es1 e2 es2 :
  flags <$> (e1 :: es1) = flags <$> (e2 :: es2) →
  newest_is_today today1 (e1 :: es1) = newest_is_today today2 (e2 :: es2) →
  scan_streaks today1 e1 (e1 :: es1) = scan_streaks today2 e2 (e2 :: es2).
Proof.
  intros Hf Ht.
  assert (Hw : ∀ l, consecutive is_success_w l
                    = consecutive (λ b : bool * bool * bool, (b.1.1 && b.1.2) || negb b.1.1)
                        (flags <$> l))
    by (intros l; apply consecutive_ext; done).
  assert (Hd : ∀ l, consecutive DailyPlanEntry.is_diet_completed l
                    = consecutive (λ b : bool * bool * bool, b.2) (flags <$> l))
    by (intros l; apply consecutive_ext; done).
  assert (Hfl : flags e1 = flags e2) by (rewrite !fmap_cons in Hf; congruence).
  unfold flags in Hfl. injection Hfl as Hday Hdone Hd1.
  assert (Hw1 : is_success_w e1 = is_success_w e2).
  { unfold is_success_w. rewrite Hday, Hdone. done. }
  assert (Hes : flags <$> es1 = flags <$> es2).
  { rewrite !fmap_cons in Hf. congruence. }
  cbn [newest_is_today] in Ht.
  destruct (decide (DailyPlanEntry.date e1 = today1)) as [H1|H1].
  - rewrite bool_decide_eq_true_2 in Ht by done.
    symmetry in Ht. apply bool_decide_eq_true_1 in Ht.
    rewrite !scan_streaks_today by done.
    rewrite Hw1, Hd1, (Hw es1), (Hw es2), (Hd es1), (Hd es2), Hes. done.
  - rewrite bool_decide_eq_false_2 in Ht by done.
    symmetry in Ht. apply bool_decide_eq_false_1 in Ht.
    rewrite !scan_streaks_past by done.
    rewrite (Hw (e1 :: es1)), (Hw (e2 :: es2)), (Hd (e1 :: es1)), (Hd (e2 :: es2)), Hf.
    done.
Qed.

(** C7. Gap invisibility: two users (of one database or two, on one day or
    two) whose loaded entry lists carry the same flags in the same order,
    and agree on whether the newest entry is today's, get the same counts:
    the dates play no other part. *)
Theorem gap_invisibility today1 today2 u1 u2 db1 db2 plan1 plan2 :
  latest_plan db1 (User.id u1) = Some plan1 →
  latest_plan db2 (User.id u2) = Some plan2 →
  let entries1 := entries_up_to db1 (UserPlan.id plan1) today1 in
  let entries2 := entries_up_to db2 (UserPlan.id plan2) today2 in
  flags <$> entries1 = flags <$> entries2 →
  newest_is_today today1 entries1 = newest_is_today today2 entries2 →
  streaks_of (calculate_streaks today1 (Some u1) db1)
  = streaks_of (calculate_streaks today2 (Some u2) db2).
Proof.
  intros Hp1 Hp2 entries1 entries2 Hf Ht.
  destruct entries1 as [|e1 es1] eqn:He1, entries2 as [|e2 es2] eqn:He2;
    try discriminate Hf.
  - unfold calculate_streaks. rewrite Hp1, Hp2. cbn zeta.
    fold entries1 entries2. rewrite He1, He2. done.
  - rewrite (calculate_streaks_full _ _ _ _ _ _ Hp1 He1).
    rewrite (calculate_streaks_full _ _ _ _ _ _ Hp2 He2).
    rewrite (streaks_from_flags _ _ _ _ _ _ Hf Ht). done.
Qed.

(** The plan of [ex_db_diet] with a week missing between its last two
    entries gets the counts of [ex_db_diet]. *)
Lemma gap_invisibility_example :
  streaks_of (calculate_streaks 100 (Some ex_user) ex_db_diet)
  = streaks_of (calculate_streaks 100 (Some ex_user) ex_db_gap).
Proof.
  apply (gap_invisibility 100 100 ex_user ex_user ex_db_diet ex_db_gap
           (UserPlan.mk 11 1 600) (UserPlan.mk 11 1 600));
    reflexivity.
Defined.

(** C8. The wrapper ignores [plan_id]: whatever plan id is passed, the
    result, the user object and the database after the call are those of
    [calculate_streaks] on the user row of [user_id]. *)
Theorem wrapper_ignores_plan_id today user_id p1 p2 db :
  compute_streaks today user_id p1 db = compute_streaks today user_id p2 db
  ∧ compute_streaks today user_id p1 db
    = calculate_streaks today (user_get db user_id) db.
Proof. split; reflexivity. Qed.

(** C10. Bounds: both counts lie between 0 and the number of loaded
    entries. *)
Theorem streak_bounds today u db plan :
  latest_plan db (User.id u) = Some plan →
  let n := Z.of_nat (length (entries_up_to db (UserPlan.id plan) today)) in
  let r := streaks_of (calculate_streaks today (Some u) db) in
  0 ≤ workout r ≤ n ∧ 0 ≤ diet r ≤ n.
Proof.
  intros Hp.
  destruct (entries_up_to db (UserPlan.id plan) today) as [|e es] eqn:He.
  - cbn zeta. unfold calculate_streaks. rewrite Hp. cbn zeta. rewrite He.
    cbn. lia.
  - cbn zeta. rewrite (calculate_streaks_full _ _ _ _ _ _ Hp He).
    cbn [workout diet].
    pose proof (consecutive_le_length is_success_w es).
    pose proof (consecutive_le_length DailyPlanEntry.is_diet_completed es).
    pose proof (consecutive_le_length is_success_w (e :: es)).
    pose proof (consecutive_le_length DailyPlanEntry.is_diet_completed (e :: es)).
    rewrite length_cons in *.
    destruct (decide (DailyPlanEntry.date e = today)) as [Hd|Hd].
    + rewrite scan_streaks_today by done. cbn [fst snd].
      destruct (is_success_w e), (DailyPlanEntry.is_diet_completed e); lia.
    + rewrite scan_streaks_past by done. cbn [fst snd]. lia.
Qed.

Lemma streak_bounds_example :
  let r := streaks_of (calculate_streaks 100 (Some ex_user) ex_db_workout) in
  0 ≤ workout r ≤ 3 ∧ 0 ≤ diet r ≤ 3.
Proof.
  apply (streak_bounds 100 ex_user ex_db_workout (UserPlan.mk 11 1 600)).
  reflexivity.
Defined.

(** * Properties of binary64 rounding *)

Lemma bpow_gt_0 e : (0 < bpow e)%R.
Proof. apply powerRZ_lt. lra. Qed.

Lemma bpow_plus a b : bpow (a + b) = (bpow a * bpow b)%R.
Proof. apply powerRZ_add. lra. Qed.

Lemma bpow_IZR e : 0 ≤ e → bpow e = IZR (2 ^ e).
Proof.
  intros He. unfold bpow. rewrite <- (Z2Nat.id e) by done.
  rewrite <- pow_powerRZ, pow_IZR. done.
Qed.

Lemma bpow_0 : bpow 0 = 1%R.
Proof. done. Qed.

Lemma bpow_1 : bpow 1 = 2%R.
Proof. apply powerRZ_1. Qed.

Lemma bpow_le a b : a ≤ b → (bpow a <= bpow b)%R.
Proof.
  intros Hab. replace b with (a + (b - a)) by lia. rewrite bpow_plus.
  rewrite (bpow_IZR (b - a)) by lia.
  pose proof (Z.pow_le_mono_r 2 0 (b - a) ltac:(lia) ltac:(lia)) as H.
  change (2 ^ 0) with 1 in H. apply IZR_le in H. pose proof (bpow_gt_0 a). nra.
Qed.

Lemma bpow_lt a b : a < b → (bpow a < bpow b)%R.
Proof.
  intros Hab. replace b with (a + (b - a)) by lia. rewrite bpow_plus.
  rewrite (bpow_IZR (b - a)) by lia.
  pose proof (Z.pow_le_mono_r 2 1 (b - a) ltac:(lia) ltac:(lia)) as H.
  change (2 ^ 1) with 2 in H. apply IZR_le in H. pose proof (bpow_gt_0 a). nra.
Qed.

Lemma digits2_pos_size p : digits2_pos p = Pos.size p.
Proof. induction p; simpl; congruence. Qed.

Lemma Zdigits2_bounds m :
  0 < m → 2 ^ (Zdigits2 m - 1) ≤ m < 2 ^ Zdigits2 m.
Proof.
  destruct m as [|p|p]; try lia. intros _. simpl Zdigits2.
  rewrite digits2_pos_size.
  pose proof (Pos.size_gt p) as Hgt. pose proof (Pos.size_le p) as Hle.
  apply Pos2Z.pos_lt_pos in Hgt. apply Pos2Z.pos_le_pos in Hle.
  rewrite Pos2Z.inj_pow in Hgt, Hle.
  replace (Z.pos (Pos.size p)) with (Z.succ (Z.pos (Pos.size p) - 1)) in Hle by lia.
  rewrite Z.pow_succ_r in Hle by lia. lia.
Qed.

Lemma Zdigits2_0 : Zdigits2 0 = 0.
Proof. done. Qed.

Lemma Zdigits2_nonneg m : 0 ≤ Zdigits2 m.
Proof. destruct m; simpl; lia. Qed.

Lemma Zdigits2_pos m : 0 < m → 0 < Zdigits2 m.
Proof. destruct m; simpl; lia. Qed.

(** [m < 2^d] bounds the digits by [d], [2^d <= m] gives more than [d]. *)
Lemma Zdigits2_le m d : 0 ≤ d → 0 ≤ m < 2 ^ d → Zdigits2 m ≤ d.
Proof.
  intros Hd [Hm0 Hm]. destruct (Z.eq_dec m 0) as [->|]; [simpl; lia|].
  destruct (Zdigits2_bounds m) as [Hlo _]; [lia|].
  destruct (Z_le_gt_dec (Zdigits2 m) d) as [|Hgt]; [done|].
  assert (2 ^ d ≤ 2 ^ (Zdigits2 m - 1)) by (apply Z.pow_le_mono_r; lia). lia.
Qed.

Lemma Zdigits2_gt m d : 0 ≤ d → 2 ^ d ≤ m → d < Zdigits2 m.
Proof.
  intros Hd Hm. assert (0 < m) by (pose proof (Z.pow_pos_nonneg 2 d); lia).
  destruct (Zdigits2_bounds m) as [_ Hhi]; [lia|].
  destruct (Z_lt_le_dec d (Zdigits2 m)) as [|Hle]; [done|].
  assert (2 ^ Zdigits2 m ≤ 2 ^ d)
    by (apply Z.pow_le_mono_r; [lia|done]). lia.
Qed.

Lemma inbetween_bounds t mrs :
  inbetween t mrs → (IZR (shr_m mrs) <= t < IZR (shr_m mrs) + 1)%R.
Proof. unfold inbetween. destruct (shr_r mrs), (shr_s mrs); lra. Qed.

Lemma shr_1_inbetween t mrs :
  0 ≤ shr_m mrs → inbetween t mrs →
  inbetween (t / 2) (shr_1 mrs) ∧ shr_m (shr_1 mrs) = shr_m mrs / 2.
Proof.
  destruct mrs as [m r s]. unfold inbetween. cbn [shr_m shr_r shr_s].
  intros Hm Ht.
  destruct m as [|p|p]; [| |lia].
  - cbn. destruct r, s; cbn; split; try done; lra.
  - destruct p as [p|p|].
    + change (Z.pos p~1) with (2 * Z.pos p + 1) in *.
      rewrite plus_IZR, mult_IZR in Ht.
      replace ((2 * Z.pos p + 1) / 2) with (Z.pos p)
        by (apply Z.div_unique with 1; lia).
      change (shr_1 {| shr_m := 2 * Z.pos p + 1; shr_r := r; shr_s := s |})
        with {| shr_m := Z.pos p; shr_r := true; shr_s := r || s |}.
      cbn [shr_m shr_r shr_s]. split; [|done].
      destruct r, s; cbn; lra.
    + change (Z.pos p~0) with (2 * Z.pos p) in *.
      rewrite mult_IZR in Ht.
      replace ((2 * Z.pos p) / 2) with (Z.pos p)
        by (apply Z.div_unique with 0; lia).
      change (shr_1 {| shr_m := 2 * Z.pos p; shr_r := r; shr_s := s |})
        with {| shr_m := Z.pos p; shr_r := false; shr_s := r || s |}.
      cbn [shr_m shr_r shr_s]. split; [|done].
      destruct r, s; cbn; lra.
    + cbn. split; [|done]. destruct r, s; cbn; lra.
Qed.

Lemma iter_pos_invariant {A} (f : A → A) (P : Z → A → Prop) :
  (∀ k x, 0 ≤ k → P k x → P (k + 1) (f x)) →
  ∀ p k x, 0 ≤ k → P k x → P (k + Z.pos p) (SpecFloat.iter_pos f p x).
Proof.
  intros Hstep. induction p as [p IH|p IH|]; intros k x Hk HP; simpl.
  - replace (k + Z.pos p~1) with (k + 1 + Z.pos p + Z.pos p) by lia.
    apply IH; [lia|]. apply IH; [lia|]. by apply Hstep.
  - replace (k + Z.pos p~0) with (k + Z.pos p + Z.pos p) by lia.
    apply IH; [lia|]. by apply IH.
  - by apply Hstep.
Qed.

Lemma shr_iter_inbetween t mrs p :
  0 ≤ shr_m mrs → inbetween t mrs →
  inbetween (t / IZR (2 ^ Z.pos p)) (SpecFloat.iter_pos shr_1 p mrs)
  ∧ shr_m (SpecFloat.iter_pos shr_1 p mrs) = shr_m mrs / 2 ^ Z.pos p.
Proof.
  intros Hm Ht.
  pose (P := λ k x, inbetween (t / IZR (2 ^ k)) x ∧ shr_m x = shr_m mrs / 2 ^ k).
  assert (HP : P (0 + Z.pos p) (SpecFloat.iter_pos shr_1 p mrs)).
  { apply iter_pos_invariant; [|lia|].
    - intros k x Hk [Hin Hx].
      assert (Hx0 : 0 ≤ shr_m x).
      { rewrite Hx. apply Z.div_pos; [done|]. by apply Z.pow_pos_nonneg. }
      destruct (shr_1_inbetween _ x Hx0 Hin) as [Hin' Hx'].
      split.
      + replace (t / IZR (2 ^ (k + 1)))%R with (t / IZR (2 ^ k) / 2)%R; [done|].
        rewrite Z.pow_add_r, mult_IZR by lia. change (IZR (2 ^ 1)) with 2%R.
        assert (0 < 2 ^ k) by (by apply Z.pow_pos_nonneg).
        apply IZR_lt in H. field. lra.
      + rewrite Hx', Hx, Z.pow_add_r by lia.
        rewrite Z.div_div; [done| |lia].
        assert (0 < 2 ^ k) by (by apply Z.pow_pos_nonneg). lia.
    - split; [|by rewrite Z.div_1_r].
      change (2 ^ 0) with 1. by rewrite Rdiv_1_r. }
  exact HP.
Qed.

Lemma fexp_eq e : fexp prec emax e = Z.max (e - 53) (-1074).
Proof. reflexivity. Qed.

Lemma scaled_shift x e k :
  0 ≤ k → scaled x (e + k) = (scaled x e / IZR (2 ^ k))%R.
Proof.
  intros Hk. unfold scaled.
  replace (- (e + k)) with (- e + - k) by lia. rewrite bpow_plus.
  unfold bpow at 2. rewrite powerRZ_neg'. fold (bpow k).
  rewrite (bpow_IZR k) by done. unfold Rdiv. ring.
Qed.

Lemma scaled_inv x e : (scaled x e * bpow e)%R = x.
Proof.
  unfold scaled. rewrite Rmult_assoc, <- bpow_plus.
  replace (- e + e) with 0 by lia. rewrite bpow_0. ring.
Qed.

Lemma scaled_exact n e : scaled (IZR n * bpow e) e = IZR n.
Proof.
  unfold scaled. rewrite Rmult_assoc, <- bpow_plus.
  replace (e + - e) with 0 by lia. rewrite bpow_0. ring.
Qed.

Lemma shr_m_of_loc m l : shr_m (shr_record_of_loc m l) = m.
Proof. destruct l as [|[]]; done. Qed.

Lemma shr_fexp_spec x m e l :
  0 ≤ m →
  inbetween (scaled x e) (shr_record_of_loc m l) →
  e ≤ fexp prec emax (Zdigits2 m + e) →
  inbetween (scaled x (shr_fexp prec emax m e l).2) (shr_fexp prec emax m e l).1
  ∧ canonic (shr_m (shr_fexp prec emax m e l).1) (shr_fexp prec emax m e l).2.
Proof.
  intros Hm Hin Hpre. unfold shr_fexp, shr.
  rewrite fexp_eq in *.
  pose proof (Zdigits2_nonneg m) as Hd0.
  assert (Hhi : m < 2 ^ Zdigits2 m).
  { destruct (Z.eq_dec m 0) as [->|]; [done|]. apply Zdigits2_bounds. lia. }
  destruct (Z.max (Zdigits2 m + e - 53) (-1074) - e) as [|p|p] eqn:Hn;
    cbn [fst snd]; [| |lia].
  - split; [done|]. rewrite shr_m_of_loc. unfold canonic.
    split; [split; [done|]|split; [lia|]].
    + assert (2 ^ Zdigits2 m ≤ 2 ^ 53) by (apply Z.pow_le_mono_r; lia). lia.
    + intros He. assert (Hd : Zdigits2 m = 53) by lia.
      destruct (Z.eq_dec m 0) as [->|]; [done|].
      destruct (Zdigits2_bounds m) as [Hlo _]; [lia|]. by rewrite Hd in Hlo.
  - destruct (shr_iter_inbetween _ _ p (eq_ind_r (λ z, 0 ≤ z) Hm (shr_m_of_loc m l)) Hin)
      as [Hin' Hm'].
    rewrite shr_m_of_loc in Hm'.
    split; [by rewrite scaled_shift|].
    rewrite Hm'. unfold canonic.
    assert (H2p : 0 < 2 ^ Z.pos p) by (by apply Z.pow_pos_nonneg).
    split; [split|split; [lia|]].
    + by apply Z.div_pos.
    + destruct (Z_le_gt_dec (Zdigits2 m) (Z.pos p)) as [Hle|Hgt].
      * assert (2 ^ Zdigits2 m ≤ 2 ^ Z.pos p) by (apply Z.pow_le_mono_r; lia).
        rewrite Z.div_small by lia. done.
      * apply Z.div_lt_upper_bound; [done|].
        assert (2 ^ Zdigits2 m ≤ 2 ^ (Z.pos p + 53)) by (apply Z.pow_le_mono_r; lia).
        rewrite Z.pow_add_r in H by lia. lia.
    + intros He. assert (Hd : Zdigits2 m = Z.pos p + 53) by lia.
      assert (m ≠ 0) by (intros ->; simpl in Hd; lia).
      destruct (Zdigits2_bounds m) as [Hlo _]; [lia|].
      rewrite Hd in Hlo. replace (Z.pos p + 53 - 1) with (52 + Z.pos p) in Hlo by lia.
      rewrite Z.pow_add_r in Hlo by lia.
      apply Z.div_le_lower_bound; [done|]. lia.
Qed.

Lemma rounded_range mrs :
  shr_m mrs ≤ rounded mrs ≤ shr_m mrs + 1.
Proof.
  unfold rounded. destruct mrs as [m [] []]; simpl; try lia.
  destruct (Z.even m); lia.
Qed.

Lemma pack_spec s n e :
  0 ≤ n ≤ 2 ^ 53 → -1074 ≤ e → (-1074 < e → 2 ^ 52 ≤ n) →
  (let '(mrs, e') := shr_fexp prec emax n e loc_Exact in
   match shr_m mrs with
   | Z0 => S754_zero s
   | Zpos m => if e' <=? emax - prec then S754_finite s m e' else S754_infinity s
   | Zneg _ => S754_nan
   end) = pack s n e.
Proof.
  intros Hn He Hnorm. unfold pack, shr_fexp, shr. rewrite fexp_eq.
  destruct (Z.eqb_spec n 0) as [->|Hn0].
  { simpl Zdigits2. destruct (Z.max (0 + e - 53) (-1074) - e) eqn:Hs; try lia; done. }
  destruct (Z.eqb_spec n (2 ^ 53)) as [->|Hn53].
  { change (Zdigits2 (2 ^ 53)) with 54.
    replace (Z.max (54 + e - 53) (-1074) - e) with 1 by lia.
    cbn. change (emax - prec) with 971. done. }
  assert (Hd : Zdigits2 n ≤ 53) by (apply Zdigits2_le; lia).
  assert (Hd' : -1074 < e → Zdigits2 n = 53).
  { intros H. specialize (Hnorm H).
    pose proof (Zdigits2_gt n 52 ltac:(lia) Hnorm). lia. }
  replace (Z.max (Zdigits2 n + e - 53) (-1074) - e) with 0 by lia.
  cbn [shr_record_of_loc shr_m]. destruct n as [|p|p]; try lia.
  change (emax - prec) with 971. simpl. done.
Qed.

Lemma binary_round_aux_spec x s m e l :
  0 ≤ m →
  inbetween (scaled x e) (shr_record_of_loc m l) →
  e ≤ fexp prec emax (Zdigits2 m + e) →
  ∃ mrs e', inbetween (scaled x e') mrs ∧ canonic (shr_m mrs) e'
            ∧ binary_round_aux prec emax s m e l = pack s (rounded mrs) e'.
Proof.
  intros Hm Hin Hpre.
  destruct (shr_fexp_spec x m e l Hm Hin Hpre) as [Hin' Hcan].
  unfold binary_round_aux.
  destruct (shr_fexp prec emax m e l) as [mrs e'] eqn:Hs. cbn [fst snd] in *.
  exists mrs, e'. split; [done|]. split; [done|].
  fold (rounded mrs). destruct Hcan as (Hm' & He' & Hnorm).
  pose proof (rounded_range mrs).
  apply pack_spec; lia.
Qed.

Lemma pack_nonneg_num n e : nonneg_num (pack false n e).
Proof.
  unfold pack, nonneg_num. destruct (n =? 0); [by right|].
  destruct (_ <=? 971); [by right|by left].
Qed.

Lemma pack_value m e n :
  canonic m e → m ≤ n ≤ m + 1 →
  (IZR (pack_m n) * bpow (pack_e n e))%R = (IZR n * bpow e)%R
  ∧ canonic (pack_m n) (pack_e n e).
Proof.
  intros (Hm & He & Hnorm) Hn. unfold pack_m, pack_e, canonic.
  destruct (Z.eqb_spec n (2 ^ 53)) as [->|Hne].
  - split; [|lia]. rewrite bpow_plus, bpow_1.
    change (2 ^ 53) with (2 ^ 52 * 2). rewrite mult_IZR. ring.
  - split; [done|]. lia.
Qed.

Lemma pack_cases n e :
  0 ≤ n →
  (n = 0 ∧ pack false n e = S754_zero false)
  ∨ (0 < n ∧ pack_e n e ≤ 971
     ∧ pack false n e = S754_finite false (Z.to_pos (pack_m n)) (pack_e n e))
  ∨ (0 < n ∧ 971 < pack_e n e ∧ pack false n e = S754_infinity false).
Proof.
  intros Hn. unfold pack. fold (pack_m n) (pack_e n e).
  destruct (Z.eqb_spec n 0) as [->|]; [by left|right].
  destruct (Z.leb_spec (pack_e n e) 971); [left|right]; (split; [lia|done]).
Qed.

Lemma SF2R_pack_finite n e :
  0 < pack_m n →
  SF2R (S754_finite false (Z.to_pos (pack_m n)) (pack_e n e))
  = (IZR (pack_m n) * bpow (pack_e n e))%R.
Proof. intros H. simpl. rewrite Z2Pos.id by done. done. Qed.

(** Rounding is monotone at one exponent ... *)
Lemma rounded_mono t1 t2 mrs1 mrs2 :
  (t1 <= t2)%R → inbetween t1 mrs1 → inbetween t2 mrs2 →
  rounded mrs1 ≤ rounded mrs2.
Proof.
  intros Ht H1 H2.
  pose proof (inbetween_bounds _ _ H1) as B1.
  pose proof (inbetween_bounds _ _ H2) as B2.
  pose proof (rounded_range mrs1) as R1.
  pose proof (rounded_range mrs2) as R2.
  assert (Hm : shr_m mrs1 ≤ shr_m mrs2).
  { apply Z.lt_succ_r, lt_IZR. rewrite succ_IZR. lra. }
  destruct (Z.eq_dec (shr_m mrs1) (shr_m mrs2)) as [Heq|Hne]; [|lia].
  unfold rounded, inbetween in *.
  destruct mrs1 as [m1 r1 s1], mrs2 as [m2 r2 s2]. cbn [shr_m shr_r shr_s] in *.
  subst m2.
  destruct r1, s1, r2, s2; cbn [loc_of_shr_record round_nearest_even];
    try lia; try (exfalso; lra); destruct (Z.even m1); lia.
Qed.

(** ... and across exponents. *)
Lemma rounded_value_mono x1 x2 mrs1 e1 mrs2 e2 :
  (x1 <= x2)%R →
  inbetween (scaled x1 e1) mrs1 → canonic (shr_m mrs1) e1 →
  inbetween (scaled x2 e2) mrs2 → canonic (shr_m mrs2) e2 →
  (IZR (rounded mrs1) * bpow e1 <= IZR (rounded mrs2) * bpow e2)%R.
Proof.
  intros Hx H1 C1 H2 C2.
  pose proof (inbetween_bounds _ _ H1) as B1.
  pose proof (inbetween_bounds _ _ H2) as B2.
  pose proof (rounded_range mrs1) as R1.
  pose proof (rounded_range mrs2) as R2.
  destruct C1 as (M1 & E1 & N1), C2 as (M2 & E2 & N2).
  pose proof (bpow_gt_0 e1) as P1. pose proof (bpow_gt_0 e2) as P2.
  pose proof (scaled_inv x1 e1) as X1. pose proof (scaled_inv x2 e2) as X2.
  assert (I53 : IZR (2 ^ 53) = (2 * IZR (2 ^ 52))%R)
    by (change (2 ^ 53) with (2 * 2 ^ 52); by rewrite mult_IZR).
  destruct (Z.lt_total e1 e2) as [Hlt|[Heq|Hgt]].
  - (* below the binade of [x2] *)
    assert (IZR (rounded mrs1) <= IZR (2 ^ 53))%R by (apply IZR_le; lia).
    assert (IZR (2 ^ 52) <= IZR (rounded mrs2))%R by (apply IZR_le; lia).
    pose proof (bpow_le (e1 + 1) e2 ltac:(lia)) as Hb.
    rewrite bpow_plus, bpow_1 in Hb.
    assert (0 < IZR (2 ^ 52))%R by (apply IZR_lt; done).
    transitivity (IZR (2 ^ 53) * bpow e1)%R; [nra|].
    transitivity (IZR (2 ^ 52) * bpow e2)%R; nra.
  - subst e2. apply Rmult_le_compat_r; [lra|]. apply IZR_le.
    apply (rounded_mono (scaled x1 e1) (scaled x2 e1)); [|done..].
    unfold scaled. pose proof (bpow_gt_0 (- e1)). nra.
  - exfalso.
    assert (IZR (2 ^ 52) <= IZR (shr_m mrs1))%R by (apply IZR_le; lia).
    assert (IZR (shr_m mrs2) + 1 <= IZR (2 ^ 53))%R
      by (rewrite <- succ_IZR; apply IZR_le; lia).
    pose proof (bpow_le (e2 + 1) e1 ltac:(lia)) as Hb.
    rewrite bpow_plus, bpow_1 in Hb.
    assert (0 < IZR (2 ^ 52))%R by (apply IZR_lt; done).
    assert (x2 < IZR (2 ^ 53) * bpow e2)%R by (rewrite <- X2; nra).
    assert (IZR (2 ^ 52) * bpow e1 <= x1)%R by (rewrite <- X1; nra).
    nra.
Qed.

Lemma pack_mono x1 x2 mrs1 e1 mrs2 e2 :
  (x1 <= x2)%R →
  inbetween (scaled x1 e1) mrs1 → canonic (shr_m mrs1) e1 →
  inbetween (scaled x2 e2) mrs2 → canonic (shr_m mrs2) e2 →
  sf_le (pack false (rounded mrs1) e1) (pack false (rounded mrs2) e2).
Proof.
  intros Hx H1 C1 H2 C2.
  pose proof (rounded_value_mono _ _ _ _ _ _ Hx H1 C1 H2 C2) as Hv.
  pose proof (rounded_range mrs1) as R1.
  pose proof (rounded_range mrs2) as R2.
  destruct (pack_value _ _ _ C1 R1) as [V1 K1].
  destruct (pack_value _ _ _ C2 R2) as [V2 K2].
  rewrite <- V1, <- V2 in Hv.
  destruct K1 as (M1 & E1 & N1), K2 as (M2 & E2 & N2).
  assert (Hn1 : 0 ≤ rounded mrs1) by (destruct C1; lia).
  assert (Hn2 : 0 ≤ rounded mrs2) by (destruct C2; lia).
  assert (Hp1 : 0 < rounded mrs1 → 0 < pack_m (rounded mrs1))
    by (unfold pack_m; destruct (_ =? _); lia).
  assert (Hp2 : 0 < rounded mrs2 → 0 < pack_m (rounded mrs2))
    by (unfold pack_m; destruct (_ =? _); lia).
  assert (Hz1 : rounded mrs1 = 0 → pack_m (rounded mrs1) = 0)
    by (intros ->; done).
  assert (Hz2 : rounded mrs2 = 0 → pack_m (rounded mrs2) = 0)
    by (intros ->; done).
  pose proof (bpow_gt_0 (pack_e (rounded mrs1) e1)) as P1.
  pose proof (bpow_gt_0 (pack_e (rounded mrs2) e2)) as P2.
  destruct (pack_cases (rounded mrs2) e2 Hn2)
    as [[Z2 ->]|[(Q2 & L2 & ->)|(Q2 & L2 & ->)]].
  - (* the larger value rounds to zero *)
    rewrite (Hz2 Z2), Rmult_0_l in Hv.
    destruct (pack_cases (rounded mrs1) e1 Hn1)
      as [[Z1 ->]|[(Q1 & _)|(Q1 & _)]].
    + apply sf_le_fin; simpl; [done..|lra].
    + exfalso. specialize (Hp1 Q1). apply IZR_lt in Hp1. nra.
    + exfalso. specialize (Hp1 Q1). apply IZR_lt in Hp1. nra.
  - destruct (pack_cases (rounded mrs1) e1 Hn1)
      as [[Z1 ->]|[(Q1 & L1 & ->)|(Q1 & L1 & _)]].
    + apply sf_le_fin; [done..|]. rewrite SF2R_pack_finite by auto.
      specialize (Hp2 Q2). apply IZR_lt in Hp2. simpl. nra.
    + apply sf_le_fin; [done..|]. rewrite !SF2R_pack_finite by auto. done.
    + (* the smaller value cannot overflow alone *)
      exfalso.
      assert (IZR (2 ^ 52) <= IZR (pack_m (rounded mrs1)))%R
        by (apply IZR_le; lia).
      assert (IZR (pack_m (rounded mrs2)) < IZR (2 ^ 53))%R
        by (apply IZR_lt; lia).
      assert (I53 : IZR (2 ^ 53) = (2 * IZR (2 ^ 52))%R)
        by (change (2 ^ 53) with (2 * 2 ^ 52); by rewrite mult_IZR).
      assert (0 < IZR (2 ^ 52))%R by (apply IZR_lt; done).
      pose proof (bpow_le (pack_e (rounded mrs2) e2 + 1)
                    (pack_e (rounded mrs1) e1) ltac:(lia)) as Hb.
      rewrite bpow_plus, bpow_1 in Hb.
      specialize (Hp2 Q2). apply IZR_lt in Hp2.
      nra.
  - apply sf_le_inf, pack_nonneg_num.
Qed.

Lemma sf_le_zero y : nonneg_num y → sf_le (S754_zero false) y.
Proof.
  intros [->|Hy]; [apply sf_le_inf; by right|].
  apply sf_le_fin; [done..|]. destruct y as [[]| | |[] m e]; try done; simpl; try lra.
  pose proof (bpow_gt_0 e). assert (0 < IZR (Z.pos m))%R by (by apply IZR_lt). nra.
Qed.

Lemma SF2R_pos m e : (0 < SF2R (S754_finite false m e))%R.
Proof.
  simpl. pose proof (bpow_gt_0 e).
  assert (0 < IZR (Z.pos m))%R by (by apply IZR_lt). nra.
Qed.

Lemma binary_round_aux_nonneg x m e l :
  0 ≤ m →
  inbetween (scaled x e) (shr_record_of_loc m l) →
  e ≤ fexp prec emax (Zdigits2 m + e) →
  nonneg_num (binary_round_aux prec emax false m e l).
Proof.
  intros Hm Hin Hpre.
  destruct (binary_round_aux_spec x false m e l Hm Hin Hpre) as (mrs & e' & _ & _ & ->).
  apply pack_nonneg_num.
Qed.

Lemma binary_round_aux_mono x1 x2 m1 e1 l1 m2 e2 l2 :
  (x1 <= x2)%R →
  0 ≤ m1 → inbetween (scaled x1 e1) (shr_record_of_loc m1 l1) →
  e1 ≤ fexp prec emax (Zdigits2 m1 + e1) →
  0 ≤ m2 → inbetween (scaled x2 e2) (shr_record_of_loc m2 l2) →
  e2 ≤ fexp prec emax (Zdigits2 m2 + e2) →
  sf_le (binary_round_aux prec emax false m1 e1 l1)
        (binary_round_aux prec emax false m2 e2 l2).
Proof.
  intros Hx Hm1 Hin1 Hpre1 Hm2 Hin2 Hpre2.
  destruct (binary_round_aux_spec x1 false m1 e1 l1 Hm1 Hin1 Hpre1)
    as (mrs1 & e1' & I1 & C1 & ->).
  destruct (binary_round_aux_spec x2 false m2 e2 l2 Hm2 Hin2 Hpre2)
    as (mrs2 & e2' & I2 & C2 & ->).
  by apply (pack_mono x1 x2).
Qed.

(** *** Multiplication by a normal float *)
Lemma mul_exact (m1 m2 : positive) e1 e2 :
  2 ^ 52 ≤ Z.pos m2 →
  inbetween (scaled (IZR (Z.pos (m1 * m2)) * bpow (e1 + e2)) (e1 + e2))
            (shr_record_of_loc (Z.pos (m1 * m2)) loc_Exact)
  ∧ e1 + e2 ≤ fexp prec emax (Zdigits2 (Z.pos (m1 * m2)) + (e1 + e2)).
Proof.
  intros H2. split.
  - unfold inbetween. cbn [shr_record_of_loc shr_r shr_s shr_m].
    apply scaled_exact.
  - rewrite fexp_eq.
    assert (52 < Zdigits2 (Z.pos (m1 * m2))).
    { apply Zdigits2_gt; [lia|]. rewrite Pos2Z.inj_mul. nia. }
    lia.
Qed.

Lemma SFmul_nonneg y m e :
  2 ^ 52 ≤ Z.pos m →
  nonneg_num y → nonneg_num (SFmul prec emax y (S754_finite false m e)).
Proof.
  intros Hm [->|Hy]; [by left|].
  destruct y as [[]| | |[] my ey]; try done; [by right|].
  cbn [SFmul xorb]. destruct (mul_exact my m ey e Hm) as [Hin Hpre].
  by eapply binary_round_aux_nonneg.
Qed.

Lemma SFmul_mono a b m e :
  2 ^ 52 ≤ Z.pos m →
  sf_le a b →
  sf_le (SFmul prec emax a (S754_finite false m e))
        (SFmul prec emax b (S754_finite false m e)).
Proof.
  intros Hm Hab.
  pose proof (λ y, SFmul_nonneg y m e Hm) as Hnn.
  destruct Hab as [a Ha|a b Ha Hb Hle]; [by apply sf_le_inf, Hnn|].
  destruct a as [[]| | |[] ma ea]; try done.
  { apply sf_le_zero, Hnn. by right. }
  destruct b as [[]| | |[] mb eb]; try done.
  { exfalso. pose proof (SF2R_pos ma ea). simpl in *. lra. }
  cbn [SFmul xorb].
  destruct (mul_exact ma m ea e Hm) as [Hin1 Hpre1].
  destruct (mul_exact mb m eb e Hm) as [Hin2 Hpre2].
  eapply binary_round_aux_mono; [|done|exact Hin1|done|done|exact Hin2|done].
  rewrite !Pos2Z.inj_mul, !mult_IZR, !bpow_plus. simpl in Hle.
  pose proof (SF2R_pos m e) as Hp. simpl in Hp. nra.
Qed.

(** *** Division by a positive float *)
Lemma new_location_inbetween t q c r :
  0 ≤ r < c →
  (t * IZR c = IZR q * IZR c + IZR r)%R →
  inbetween t (shr_record_of_loc q (new_location c r)).
Proof.
  intros Hr Ht.
  assert (Hc : (0 < IZR c)%R) by (apply IZR_lt; lia).
  assert (Hr0 : (0 <= IZR r)%R) by (apply IZR_le; lia).
  assert (Hloc : new_location c r
                 = if r =? 0 then loc_Exact else loc_Inexact (2 * r ?= c)).
  { unfold new_location, new_location_even, new_location_odd.
    destruct (Z.even c) eqn:Hev; [done|].
    destruct (r =? 0); [done|]. f_equal.
    assert (Hodd : Z.odd c = true) by (by rewrite <- Z.negb_even, Hev).
    apply Z.odd_spec in Hodd as [k ->].
    destruct (Z.compare_spec (2 * r + 1) (2 * k + 1)),
             (Z.compare_spec (2 * r) (2 * k + 1)); try done; lia. }
  rewrite Hloc. destruct (Z.eqb_spec r 0) as [->|Hne].
  { unfold inbetween. cbn. nra. }
  assert (Hr1 : (0 < IZR r)%R) by (apply IZR_lt; lia).
  unfold inbetween.
  destruct (Z.compare_spec (2 * r) c) as [Heq|Hlt|Hgt];
    cbn [shr_record_of_loc shr_r shr_s shr_m].
  - apply (f_equal IZR) in Heq. rewrite mult_IZR in Heq. nra.
  - apply IZR_lt in Hlt. rewrite mult_IZR in Hlt. split; nra.
  - apply IZR_lt in Hgt. rewrite mult_IZR in Hgt.
    assert (IZR r < IZR c)%R by (apply IZR_lt; lia). split; nra.
Qed.

Lemma SFdiv_core_spec (m1 m2 : positive) e1 e2 :
  let qel := SFdiv_core_binary prec emax (Z.pos m1) e1 (Z.pos m2) e2 in
  0 ≤ qel.1.1
  ∧ inbetween
      (scaled (IZR (Z.pos m1) * bpow e1 / (IZR (Z.pos m2) * bpow e2)) qel.1.2)
      (shr_record_of_loc qel.1.1 qel.2)
  ∧ qel.1.2 ≤ fexp prec emax (Zdigits2 qel.1.1 + qel.1.2).
Proof.
  unfold SFdiv_core_binary. rewrite !fexp_eq.
  set (d1 := Zdigits2 (Z.pos m1)). set (d2 := Zdigits2 (Z.pos m2)).
  set (e' := Z.min (Z.max (d1 + e1 - (d2 + e2) - 53) (-1074)) (e1 - e2)).
  set (s := e1 - e2 - e').
  assert (Hs : 0 ≤ s) by lia.
  set (m' := match s with Z.pos _ => Z.shiftl (Z.pos m1) s | 0 => Z.pos m1 | Z.neg _ => 0 end).
  assert (Hm' : m' = Z.pos m1 * 2 ^ s).
  { unfold m'. destruct s as [|p|p] eqn:Hsp; [simpl; lia| |lia].
    rewrite Z.shiftl_mul_pow2; lia. }
  pose proof (Z_div_mod m' (Z.pos m2) ltac:(lia)) as Hdm.
  destruct (Z.div_eucl m' (Z.pos m2)) as [q r]. destruct Hdm as [Heq Hr].
  cbn [fst snd].
  assert (H2s : 0 < 2 ^ s) by (by apply Z.pow_pos_nonneg).
  assert (Hq : 0 ≤ q) by nia.
  split; [done|]. split.
  - apply new_location_inbetween; [done|].
    rewrite <- mult_IZR, <- plus_IZR.
    replace (q * Z.pos m2 + r) with m' by lia. rewrite Hm', mult_IZR.
    unfold scaled. replace e1 with (s + e2 + e') by lia.
    rewrite !bpow_plus, <- (bpow_IZR s) by done.
    pose proof (bpow_gt_0 e2). pose proof (bpow_gt_0 e').
    assert (0 < IZR (Z.pos m2))%R by (by apply IZR_lt).
    unfold bpow at 5. rewrite powerRZ_neg'. fold (bpow e').
    field. lra.
  - destruct (Z_le_gt_dec e' (-1074)) as [|He']; [lia|].
    assert (52 < Zdigits2 q); [|lia].
    apply Zdigits2_gt; [lia|].
    destruct (Zdigits2_bounds (Z.pos m1) ltac:(lia)) as [Hlo1 _].
    destruct (Zdigits2_bounds (Z.pos m2) ltac:(lia)) as [_ Hhi2].
    fold d1 in Hlo1. fold d2 in Hhi2.
    assert (Hd1 : 0 < d1) by (by apply Zdigits2_pos).
    assert (Hd2 : 0 < d2) by (by apply Zdigits2_pos).
    assert (Hpow : 2 ^ (52 + d2) ≤ 2 ^ (d1 - 1 + s))
      by (apply Z.pow_le_mono_r; lia).
    rewrite !Z.pow_add_r in Hpow by lia.
    assert (2 ^ 52 * Z.pos m2 ≤ m').
    { rewrite Hm'. assert (0 < 2 ^ 52) by done. nia. }
    assert (2 ^ 52 * Z.pos m2 ≤ Z.pos m2 * q + r) by lia.
    assert (0 < 2 ^ 52) by done.
    assert (2 ^ 52 < q + 1) by nia. lia.
Qed.

Lemma SFdiv_located (m1 m2 : positive) e1 e2 :
  ∃ q e' l,
    SFdiv_core_binary prec emax (Z.pos m1) e1 (Z.pos m2) e2 = (q, e', l)
    ∧ 0 ≤ q
    ∧ inbetween
        (scaled (SF2R (S754_finite false m1 e1) / SF2R (S754_finite false m2 e2)) e')
        (shr_record_of_loc q l)
    ∧ e' ≤ fexp prec emax (Zdigits2 q + e').
Proof.
  pose proof (SFdiv_core_spec m1 m2 e1 e2) as H. cbn zeta in H.
  destruct (SFdiv_core_binary prec emax (Z.pos m1) e1 (Z.pos m2) e2) as [[q e'] l].
  exists q, e', l. done.
Qed.

Lemma SFdiv_nonneg y m e :
  nonneg_num y → nonneg_num (SFdiv prec emax y (S754_finite false m e)).
Proof.
  intros [->|Hy]; [by left|].
  destruct y as [[]| | |[] my ey]; try done; [by right|].
  cbn [SFdiv xorb].
  destruct (SFdiv_located my m ey e) as (q & e' & l & -> & Hq & Hin & Hpre).
  by eapply binary_round_aux_nonneg.
Qed.

Lemma SFdiv_mono a b m e :
  sf_le a b →
  sf_le (SFdiv prec emax a (S754_finite false m e))
        (SFdiv prec emax b (S754_finite false m e)).
Proof.
  intros Hab.
  pose proof (λ y, SFdiv_nonneg y m e) as Hnn.
  destruct Hab as [a Ha|a b Ha Hb Hle]; [by apply sf_le_inf, Hnn|].
  destruct a as [[]| | |[] ma ea]; try done.
  { apply sf_le_zero, Hnn. by right. }
  destruct b as [[]| | |[] mb eb]; try done.
  { exfalso. pose proof (SF2R_pos ma ea). simpl in *. lra. }
  cbn [SFdiv xorb].
  destruct (SFdiv_located ma m ea e) as (q1 & e1' & l1 & -> & Hq1 & Hin1 & Hpre1).
  destruct (SFdiv_located mb m eb e) as (q2 & e2' & l2 & -> & Hq2 & Hin2 & Hpre2).
  eapply binary_round_aux_mono; [|done|exact Hin1|done|done|exact Hin2|done].
  pose proof (SF2R_pos m e) as Hp.
  apply Rmult_le_compat_r; [|done].
  apply Rlt_le, Rinv_0_lt_compat, Hp.
Qed.

(** *** The order of valid floats is the order of their values *)
Lemma valid_canonic s m e :
  valid_binary (S754_finite s m e) = true → canonic (Z.pos m) e.
Proof.
  unfold SpecFloat.valid_binary, SpecFloat.bounded, SpecFloat.canonical_mantissa.
  rewrite fexp_eq. intros [Hc Hb]%andb_prop.
  apply Z.eqb_eq in Hc. fold (Zdigits2 (Z.pos m)) in Hc.
  pose proof (Zdigits2_bounds (Z.pos m) ltac:(lia)) as [Hlo Hhi].
  unfold canonic. split; [split; [lia|]|split; [lia|]].
  - assert (2 ^ Zdigits2 (Z.pos m) ≤ 2 ^ 53) by (apply Z.pow_le_mono_r; lia). lia.
  - intros He. replace (Zdigits2 (Z.pos m)) with 53 in Hlo by lia. done.
Qed.

Lemma SFleb_sf_le a b :
  valid_binary a = true → valid_binary b = true →
  nonneg_num a → nonneg_num b →
  SFleb a b = true → sf_le a b.
Proof.
  intros Va Vb Na Nb Hle.
  destruct Nb as [->|Fb]; [by apply sf_le_inf|].
  destruct Na as [->|Fa].
  { destruct b as [[]| | |[] mb eb]; done. }
  apply sf_le_fin; [done..|].
  destruct a as [[]| | |[] ma ea]; try done;
    destruct b as [[]| | |[] mb eb]; try done; try (simpl; lra).
  { pose proof (SF2R_pos mb eb). simpl in *. lra. }
  unfold SFleb, SFcompare in Hle.
  destruct (valid_canonic _ _ _ Va) as (Ma & Ea & Na).
  destruct (valid_canonic _ _ _ Vb) as (Mb & Eb & Nb).
  pose proof (bpow_gt_0 ea). pose proof (bpow_gt_0 eb).
  simpl SF2R.
  destruct (Z.compare_spec ea eb) as [->|Hlt|Hgt]; [| |done].
  - apply Rmult_le_compat_r; [lra|]. apply IZR_le.
    change (Pos.compare_cont Eq ma mb) with (Pos.compare ma mb) in Hle.
    destruct (Pos.compare_spec ma mb); [lia|lia|done].
  - pose proof (bpow_le (ea + 1) eb ltac:(lia)) as Hb.
    rewrite bpow_plus, bpow_1 in Hb.
    assert (IZR (Z.pos ma) < IZR (2 ^ 53))%R by (apply IZR_lt; lia).
    assert (IZR (2 ^ 52) <= IZR (Z.pos mb))%R by (apply IZR_le; lia).
    assert (I53 : IZR (2 ^ 53) = (2 * IZR (2 ^ 52))%R)
      by (change (2 ^ 53) with (2 * 2 ^ 52); by rewrite mult_IZR).
    assert (0 < IZR (2 ^ 52))%R by (apply IZR_lt; done).
    nra.
Qed.

Lemma SFcompare_antisym a b :
  SFcompare b a = CompOpp <$> SFcompare a b.
Proof.
  destruct a as [[]|[]| |[] ma ea], b as [[]|[]| |[] mb eb]; try done; cbn;
    rewrite (Z.compare_antisym ea eb); destruct (ea ?= eb); cbn; try done;
    rewrite (Pos.compare_cont_antisym); cbn; try done.
  by rewrite CompOpp_involutive.
Qed.

Lemma SFleb_not_ltb a b : SFleb a b = true → SFltb b a = false.
Proof.
  unfold SFleb, SFltb. rewrite (SFcompare_antisym a b).
  destruct (SFcompare a b) as [[]|]; done.
Qed.

(** *** Truncation to an integer *)
Lemma shiftl_floor a e :
  (IZR (Z.shiftl a e) <= IZR a * bpow e < IZR (Z.shiftl a e) + 1)%R.
Proof.
  destruct (Z_le_gt_dec 0 e) as [He|He].
  - rewrite Z.shiftl_mul_pow2, mult_IZR, <- bpow_IZR by done. lra.
  - assert (Hsh : Z.shiftl a e = a / 2 ^ (- e)).
    { rewrite <- (Z.opp_involutive e) at 1. rewrite Z.shiftl_opp_r.
      apply Z.shiftr_div_pow2. lia. }
    rewrite Hsh.
    assert (Hd : 0 < 2 ^ (- e)) by (apply Z.pow_pos_nonneg; lia).
    pose proof (Z_div_mod a (2 ^ (- e)) ltac:(lia)) as Hdm.
    unfold Z.div. destruct (Z.div_eucl a (2 ^ (- e))) as [q r].
    destruct Hdm as [Ha Hr]. cbn [fst].
    assert (Hb : bpow e = (/ IZR (2 ^ (- e)))%R).
    { rewrite <- bpow_IZR by lia. unfold bpow. rewrite <- powerRZ_neg'.
      by rewrite Z.opp_involutive. }
    rewrite Hb, Ha, plus_IZR, mult_IZR.
    apply IZR_lt in Hd.
    assert (0 <= IZR r)%R by (apply IZR_le; lia).
    assert (IZR r < IZR (2 ^ (- e)))%R by (apply IZR_lt; lia).
    set (d := IZR (2 ^ (- e))) in *.
    replace ((d * IZR q + IZR r) * / d)%R with (IZR q + IZR r * / d)%R
      by (field; lra).
    assert (0 <= IZR r * / d < 1)%R.
    { split.
      - apply Rmult_le_pos; [done|]. apply Rlt_le, Rinv_0_lt_compat. done.
      - apply Rmult_lt_reg_r with d; [done|]. rewrite Rmult_assoc, Rinv_l; lra. }
    lra.
Qed.

(** * Properties of [estimate_transformation_days] *)

Lemma Prim2SF_nan y : Prim2SF y = S754_nan ↔ is_nan y = true.
Proof.
  unfold Prim2SF. destruct (is_nan y); [done|].
  destruct (is_zero y); [done|]. destruct (is_infinity y); [done|].
  destruct (Z.frexp y) as [r ex].
  destruct (shr_fexp _ _ _ _ _) as [mrs e']. destruct (shr_m mrs); done.
Qed.

Lemma abs_nan_or_nonneg d : nan_or_nonneg (Prim2SF (abs d)).
Proof.
  rewrite abs_spec. unfold nan_or_nonneg, nonneg_num.
  destruct (Prim2SF d) as [s|s| |s m e]; simpl; auto.
Qed.

(** The four rates and the factor 7 are positive normal floats. *)
Lemma rate_per_week_cases s :
  ∃ m e, Prim2SF (rate_per_week s) = S754_finite false m e.
Proof.
  unfold rate_per_week. repeat case_bool_decide.
  - by exists 4953959590107546%positive, (-53).
  - by exists 5404319552844595%positive, (-54).
  - by exists 7205759403792794%positive, (-55).
  - by exists 7205759403792794%positive, (-54).
Qed.

Lemma Prim2SF_7 : Prim2SF 7 = S754_finite false 7881299347898368 (-50).
Proof. reflexivity. Qed.

Lemma product_nan_or_nonneg kg r m e :
  Prim2SF r = S754_finite false m e →
  nan_or_nonneg (Prim2SF kg) →
  nan_or_nonneg (Prim2SF (kg / r * 7)).
Proof.
  intros Hr Hkg. rewrite mul_spec, div_spec, Hr, Prim2SF_7.
  unfold SF64mul, SF64div. destruct Hkg as [->|Hkg]; [by left|right].
  apply SFmul_nonneg; [done|]. by apply SFdiv_nonneg.
Qed.

Lemma product_mono kg1 kg2 r m e :
  Prim2SF r = S754_finite false m e →
  sf_le (Prim2SF kg2) (Prim2SF kg1) →
  sf_le (Prim2SF (kg2 / r * 7)) (Prim2SF (kg1 / r * 7)).
Proof.
  intros Hr Hkg. rewrite !mul_spec, !div_spec, Hr, Prim2SF_7.
  unfold SF64mul, SF64div. apply SFmul_mono; [done|]. by apply SFdiv_mono.
Qed.

(** On a float that is not negative, [int] is the floor. *)
Lemma int_of_float_floor y :
  nan_or_nonneg (Prim2SF y) →
  match float_floor y with
  | Some n => int_of_float y = Returns n
  | None => int_of_float y = Raises (if is_nan y then ValueError else OverflowError)
  end.
Proof.
  intros Hy. pose proof (Prim2SF_nan y) as Hnan.
  unfold float_floor, int_of_float.
  destruct (Prim2SF y) as [s|s| |s m e].
  - done.
  - destruct (is_nan y); [|done]. destruct Hnan as [_ Hn]. by specialize (Hn eq_refl).
  - destruct Hnan as [-> _]; done.
  - destruct Hy as [?|[?|Hf]]; try done. destruct s; done.
Qed.

(** [float_floor] is the floor of the value. *)
Lemma float_floor_spec y s m e n :
  Prim2SF y = S754_finite s m e → float_floor y = Some n →
  (IZR n <= SF2R (Prim2SF y) < IZR n + 1)%R.
Proof.
  unfold float_floor. intros -> [= <-]. simpl SF2R.
  pose proof (shiftl_floor (cond_Zopp s (Z.pos m)) e) as H.
  destruct s; simpl cond_Zopp in *; [|done].
  change (Z.neg m) with (- Z.pos m) in *. rewrite opp_IZR in H. lra.
Qed.

Lemma int_of_float_mono y1 y2 n2 :
  sf_le (Prim2SF y1) (Prim2SF y2) →
  int_of_float y2 = Returns n2 →
  ∃ n1, int_of_float y1 = Returns n1 ∧ n1 ≤ n2.
Proof.
  unfold int_of_float. intros Hle H2.
  destruct Hle as [a Ha|a b Ha Hb Hle]; [done|].
  destruct a as [[]| | |[] ma ea]; try done;
    destruct b as [[]| | |[] mb eb]; try done;
    simpl in H2; injection H2 as <-; eexists; (split; [done|]); simpl cond_Zopp;
    try lia.
  - pose proof (Z.shiftl_nonneg (Z.pos mb) eb). lia.
  - exfalso. pose proof (SF2R_pos ma ea). simpl in *. lra.
  - pose proof (shiftl_floor (Z.pos ma) ea). pose proof (shiftl_floor (Z.pos mb) eb).
    simpl in Hle. apply Z.lt_succ_r, lt_IZR. rewrite succ_IZR. lra.
Qed.

Lemma leb_sf_le x y :
  nan_or_nonneg (Prim2SF x) → nan_or_nonneg (Prim2SF y) →
  (x <=? y)%float = true → sf_le (Prim2SF x) (Prim2SF y).
Proof.
  intros Hx Hy. rewrite leb_spec. intros Hle.
  destruct Hx as [Hx|Hx]; [by rewrite Hx in Hle|].
  destruct Hy as [Hy|Hy].
  { rewrite Hy in Hle. by destruct (Prim2SF x). }
  apply SFleb_sf_le; [apply Prim2SF_valid..|done|done|done].
Qed.

Lemma leb_not_ltb x y : (x <=? y)%float = true → (y <? x)%float = false.
Proof. rewrite leb_spec, ltb_spec. apply SFleb_not_ltb. Qed.

(** The estimator past its two guards. *)
Lemma estimate_past_guards lower w t goal :
  (abs (t - w) <? 0.1)%float = false →
  estimate_transformation_days lower (Some w) (Some t) goal =
    match int_of_float (abs (t - w) / rate_per_week (lower (default "" goal)) * 7) with
    | Returns n => Returns (Z.max 7 n)
    | Raises e => Raises e
    end.
Proof. intros H. unfold estimate_transformation_days. by rewrite H. Qed.

(** C3 as the specification states it fails where the float product
    overflows: from 0 kg to 1e308 kg the call raises [OverflowError] and
    returns nothing. *)
Lemma estimate_overflow :
  (abs (1e308 - 0) <? 0.1)%float = false
  ∧ estimate_transformation_days str_lower (Some 0%float) (Some 1e308%float)
      (Some "recomp") = Raises OverflowError.
Proof. split; reflexivity. Qed.

(** C3, amended. The estimator returns 0 when a weight is missing or when
    [abs (target - weight) < 0.1]; otherwise, with the rate of the goal
    table at the lower-cased goal and [p] the binary64 value of
    [abs (target - weight) / rate * 7], it returns [max 7 (floor p)] when
    [p] is finite and raises when it is not ([ValueError] on NaN,
    [OverflowError] on an infinity). *)
Theorem estimate_contract lower weight target goal :
  (weight = None ∨ target = None →
     estimate_transformation_days lower weight target goal = Returns 0)
  ∧ (∀ w t, weight = Some w → target = Some t →
       let kg_to_change := abs (t - w) in
       ((kg_to_change <? 0.1)%float = true →
          estimate_transformation_days lower weight target goal = Returns 0)
       ∧ ((kg_to_change <? 0.1)%float = false →
            let p := (kg_to_change / rate_per_week (lower (default "" goal)) * 7)%float in
            match float_floor p with
            | Some n =>
                estimate_transformation_days lower weight target goal
                = Returns (Z.max 7 n)
            | None =>
                estimate_transformation_days lower weight target goal
                = Raises (if is_nan p then ValueError else OverflowError)
            end))
  ∧ (∀ s,
       (s ∈ ["fat_loss"; "lose"; "weight_loss"] → rate_per_week s = 0.55%float)
       ∧ (s ∈ ["muscle_gain"; "gain"; "bulk"] → rate_per_week s = 0.3%float)
       ∧ (s ∈ ["recomposition"; "recomp"] → rate_per_week s = 0.2%float)
       ∧ (s ∉ ["fat_loss"; "lose"; "weight_loss"; "muscle_gain"; "gain"; "bulk";
               "recomposition"; "recomp"] → rate_per_week s = 0.4%float)).
Proof.
  split; [|split].
  - intros [->| ->]; [done|]. by destruct weight.
  - intros w t -> -> kg. split.
    + intros H. unfold estimate_transformation_days. fold kg. by rewrite H.
    + intros H p. rewrite estimate_past_guards by done. fold kg p.
      destruct (rate_per_week_cases (lower (default "" goal))) as (m & e & Hr).
      pose proof (int_of_float_floor p
                    (product_nan_or_nonneg kg _ m e Hr (abs_nan_or_nonneg _))) as Hp.
      destruct (float_floor p) as [n|]; by rewrite Hp.
  - intros s. unfold rate_per_week.
    repeat split; intros Hs; repeat case_bool_decide; try done;
      rewrite ?elem_of_cons, ?not_elem_of_cons, ?elem_of_nil in *;
      exfalso; intuition congruence.
Qed.

(** The specification's example: from 80 kg to 70 kg with goal
    ["fat_loss"] the estimate is 127 days. *)
Lemma estimate_contract_example :
  estimate_transformation_days str_lower (Some 80%float) (Some 70%float)
    (Some "fat_loss") = Returns 127.
Proof.
  pose proof (proj1 (proj2 (estimate_contract str_lower (Some 80%float)
                              (Some 70%float) (Some "fat_loss")))
                80%float 70%float eq_refl eq_refl) as [_ H].
  exact (H eq_refl).
Defined.

(** The table is read through [lower]: with the ASCII [str_lower] a goal
    in capitals selects the fat-loss rate. *)
Example estimate_case_insensitive :
  estimate_transformation_days str_lower (Some 80%float) (Some 70%float)
    (Some "Fat_LOSS") = Returns 127.
Proof. reflexivity. Qed.

(** The floor is taken of the binary64 product, not of the exact quotient:
    0.6 / 0.2 * 7 is 20.999999999999996 in binary64, hence 20 days. *)
Example estimate_rounds_in_binary64 :
  estimate_transformation_days str_lower (Some 0%float) (Some 0.6%float)
    (Some "recomp") = Returns 20.
Proof. reflexivity. Qed.

(** C9 as the specification states it fails where the larger change
    overflows: both changes are at least 0.1 and the first is the larger,
    yet the first call raises and so is not above the second call's 35. *)
Lemma estimate_monotone_overflow :
  let kg1 := abs (1e308 - 0) in
  let kg2 := abs (1 - 0) in
  (0.1 <=? kg1)%float = true
  ∧ (0.1 <=? kg2)%float = true
  ∧ (kg2 <=? kg1)%float = true
  ∧ estimate_transformation_days str_lower (Some 0%float) (Some 1e308%float)
      (Some "recomp") = Raises OverflowError
  ∧ estimate_transformation_days str_lower (Some 0%float) (Some 1%float)
      (Some "recomp") = Returns 35.
Proof. repeat split; reflexivity. Qed.

(** C9, amended. For a fixed goal and two pairs of present weights, both
    changes [abs (target - weight)] at least 0.1 and the first at least the
    second: when the estimate of the first pair returns, the estimate of
    the second pair returns too and is not larger. *)
Theorem estimate_monotone lower goal w1 t1 w2 t2 n1 :
  (0.1 <=? abs (t1 - w1))%float = true →
  (0.1 <=? abs (t2 - w2))%float = true →
  (abs (t2 - w2) <=? abs (t1 - w1))%float = true →
  estimate_transformation_days lower (Some w1) (Some t1) goal = Returns n1 →
  ∃ n2, estimate_transformation_days lower (Some w2) (Some t2) goal = Returns n2
        ∧ n2 ≤ n1.
Proof.
  intros G1 G2 Hle.
  rewrite !estimate_past_guards by (by apply leb_not_ltb).
  destruct (rate_per_week_cases (lower (default "" goal))) as (m & e & Hr).
  set (r := rate_per_week (lower (default "" goal))) in *.
  pose proof (leb_sf_le _ _ (abs_nan_or_nonneg _) (abs_nan_or_nonneg _) Hle) as Hkg.
  pose proof (product_mono _ _ r m e Hr Hkg) as Hp.
  destruct (int_of_float (abs (t1 - w1) / r * 7)) as [k1|] eqn:H1; [|done].
  intros [= <-].
  destruct (int_of_float_mono _ _ k1 Hp H1) as (k2 & -> & Hk).
  exists (Z.max 7 k2). split; [done|lia].
Qed.

(** From 80 kg, the way to 75 kg is estimated no longer than the way to
    70 kg. *)
Lemma estimate_monotone_example :
  ∃ n2, estimate_transformation_days str_lower (Some 80%float) (Some 75%float)
          (Some "fat_loss") = Returns n2
        ∧ n2 ≤ 127.
Proof.
  apply (estimate_monotone str_lower (Some "fat_loss")
           80%float 70%float 80%float 75%float 127);
    reflexivity.
Defined.

(** * Further properties of the streak service *)

(** ** What [calculate_streaks] writes and what it leaves alone *)

Lemma calculate_streaks_unfold today u db plan first_entry older :
  latest_plan db (User.id u) = Some plan →
  entries_up_to db (UserPlan.id plan) today = first_entry :: older →
  calculate_streaks today (Some u) db =
    let w := (scan_streaks today first_entry (first_entry :: older)).1 in
    let d := (scan_streaks today first_entry (first_entry :: older)).2 in
    if bool_decide (Some w ≠ User.workout_streak u ∨ Some d ≠ User.diet_streak u)
    then (mkStreaks w d, Some (set_streaks u w d), commit_user (set_streaks u w d) db)
    else (mkStreaks w d, Some u, db).
Proof.
  intros Hp He. unfold calculate_streaks. rewrite Hp. cbn zeta. rewrite He.
  destruct (scan_streaks _ _ _) as [w d]. done.
Qed.

(** The shape of every result: either nothing was written, or the user
    object got the two counts and was committed once. *)
Lemma calculate_streaks_shape today user db :
  let r := calculate_streaks today user db in
  (user_after r = user ∧ db_after r = db)
  ∨ (∃ u, user = Some u
          ∧ user_after r
            = Some (set_streaks u (workout (streaks_of r)) (diet (streaks_of r)))
          ∧ db_after r
            = commit_user
                (set_streaks u (workout (streaks_of r)) (diet (streaks_of r))) db).
Proof.
  destruct user as [u|]; [|by left].
  destruct (latest_plan db (User.id u)) as [plan|] eqn:Hp.
  2:{ left. unfold calculate_streaks. rewrite Hp. done. }
  destruct (entries_up_to db (UserPlan.id plan) today) as [|e es] eqn:He.
  { left. unfold calculate_streaks. rewrite Hp. cbn zeta. rewrite He. done. }
  cbn zeta. rewrite (calculate_streaks_unfold _ _ _ _ _ _ Hp He). cbn zeta.
  case_bool_decide; [right|by left]. by exists u.
Qed.

(** X1. Frame: a call never touches a plan, an entry or another user's row,
    commits at most once, and returns the user it was given (same id). *)
Theorem calculate_streaks_frame today user db :
  let r := calculate_streaks today user db in
  plan_table (db_after r) = plan_table db
  ∧ entry_table (db_after r) = entry_table db
  ∧ (∀ uid, User.id <$> user ≠ Some uid →
            user_table (db_after r) !! uid = user_table db !! uid)
  ∧ (commits db ≤ commits (db_after r) ≤ S (commits db))%nat
  ∧ User.id <$> user_after r = User.id <$> user.
Proof.
  destruct (calculate_streaks_shape today user db) as [[Hu Hd]|(u & -> & Hu & Hd)];
    cbn zeta; rewrite Hu, Hd.
  - repeat split; auto with lia.
  - cbn. repeat split; auto with lia.
    intros uid Hne. apply lookup_insert_ne. congruence.
Qed.

(** X2. Cache coherence: after a call that reached the scan, the streaks
    stored on the user object are the returned counts, written or not. *)
Theorem stored_streaks_are_returned today u db plan first_entry older :
  latest_plan db (User.id u) = Some plan →
  entries_up_to db (UserPlan.id plan) today = first_entry :: older →
  let r := calculate_streaks today (Some u) db in
  ∃ u', user_after r = Some u'
        ∧ User.id u' = User.id u
        ∧ User.workout_streak u' = Some (workout (streaks_of r))
        ∧ User.diet_streak u' = Some (diet (streaks_of r)).
Proof.
  intros Hp He. cbn zeta. rewrite (calculate_streaks_unfold _ _ _ _ _ _ Hp He).
  cbn zeta. case_bool_decide as Hne.
  - eexists. split; [done|]. done.
  - exists u. split; [done|]. split; [done|]. cbn.
    destruct (decide (Some (scan_streaks today first_entry (first_entry :: older)).1
                      = User.workout_streak u)) as [Hw|Hw];
      [|destruct Hne; by left].
    destruct (decide (Some (scan_streaks today first_entry (first_entry :: older)).2
                      = User.diet_streak u)) as [Hd|Hd];
      [|destruct Hne; by right].
    done.
Qed.

Lemma stored_streaks_are_returned_example :
  ∃ u', user_after (calculate_streaks 100 (Some ex_user) ex_db_workout) = Some u'
        ∧ User.id u' = 1
        ∧ User.workout_streak u' = Some 2
        ∧ User.diet_streak u' = Some 1.
Proof.
  apply (stored_streaks_are_returned 100 ex_user ex_db_workout
           (UserPlan.mk 11 1 600)
           (DailyPlanEntry.mk 11 100 true false false)
           [DailyPlanEntry.mk 11 99 false false true;
            DailyPlanEntry.mk 11 98 true true false]);
    reflexivity.
Defined.

(** X3. The stored streaks are a cache only: the counts returned do not depend
    on them. *)
Theorem streaks_ignore_stored_values today db uid ws ds ws' ds' :
  streaks_of (calculate_streaks today (Some (User.mk uid ws ds)) db)
  = streaks_of (calculate_streaks today (Some (User.mk uid ws' ds')) db).
Proof.
  unfold calculate_streaks. cbn [User.id].
  destruct (latest_plan db uid) as [plan|]; [|done]. cbn zeta.
  destruct (entries_up_to db (UserPlan.id plan) today) as [|e es]; [done|].
  destruct (scan_streaks today e (e :: es)) as [w d].
  repeat case_bool_decide; done.
Qed.

(** ** How the counts read the entries *)

(** X4. Today's entry counts exactly when it is done: with the newest entry
    dated today, each streak is 1 (done) or 0 (pending) plus the run of
    good days before today. *)
Theorem today_counts_when_done today u db plan first_entry older :
  latest_plan db (User.id u) = Some plan →
  entries_up_to db (UserPlan.id plan) today = first_entry :: older →
  DailyPlanEntry.date first_entry = today →
  let r := streaks_of (calculate_streaks today (Some u) db) in
  workout r = (if is_success_w first_entry then 1 else 0)
              + Z.of_nat (consecutive is_success_w older)
  ∧ diet r = (if DailyPlanEntry.is_diet_completed first_entry then 1 else 0)
             + Z.of_nat (consecutive DailyPlanEntry.is_diet_completed older).
Proof.
  intros Hp He Hd. cbn zeta.
  rewrite (calculate_streaks_full _ _ _ _ _ _ Hp He).
  rewrite scan_streaks_today by done. done.
Qed.

(** In [ex_db_diet] every day is a rest day, so the workout streak counts
    today and both days before; the diet streak is pending today. *)
Lemma today_counts_when_done_example :
  let r := streaks_of (calculate_streaks 100 (Some ex_user) ex_db_diet) in
  workout r = 1 + 2 ∧ diet r = 0 + 1.
Proof.
  apply (today_counts_when_done 100 ex_user ex_db_diet
           (UserPlan.mk 11 1 600)
           (DailyPlanEntry.mk 11 100 false false false)
           [DailyPlanEntry.mk 11 99 false false true;
            DailyPlanEntry.mk 11 98 false false false]);
    reflexivity.
Defined.

(** X5. "If missed, streak resets": when today's entry is absent or pending
    and the newest entry before today is a missed exercise day, the workout
    streak is 0; likewise the diet streak after a day without diet. *)
Theorem missed_day_resets today u db plan first_entry older missed rest :
  latest_plan db (User.id u) = Some plan →
  entries_up_to db (UserPlan.id plan) today = first_entry :: older →
  (if bool_decide (DailyPlanEntry.date first_entry = today)
   then older else first_entry :: older) = missed :: rest →
  let r := streaks_of (calculate_streaks today (Some u) db) in
  ((DailyPlanEntry.date first_entry = today → is_success_w first_entry = false) →
   is_success_w missed = false → workout r = 0)
  ∧ ((DailyPlanEntry.date first_entry = today →
      DailyPlanEntry.is_diet_completed first_entry = false) →
     DailyPlanEntry.is_diet_completed missed = false → diet r = 0).
Proof.
  intros Hp He Hpast. cbn zeta.
  rewrite (calculate_streaks_full _ _ _ _ _ _ Hp He). cbn [workout diet].
  case_bool_decide as Hd.
  - rewrite scan_streaks_today by done. cbn [fst snd]. subst older.
    split; intros Hpend Hm; rewrite (Hpend Hd); simpl; by rewrite Hm.
  - rewrite scan_streaks_past by done. cbn [fst snd].
    injection Hpast as -> ->. split; intros _ Hm; simpl; by rewrite Hm.
Qed.

Lemma missed_day_resets_example :
  diet (streaks_of (calculate_streaks 101 (Some ex_user) ex_db_diet)) = 0.
Proof.
  refine (proj2 (missed_day_resets 101 ex_user ex_db_diet
                   (UserPlan.mk 11 1 600)
                   (DailyPlanEntry.mk 11 100 false false false)
                   [DailyPlanEntry.mk 11 99 false false true;
                    DailyPlanEntry.mk 11 98 false false false]
                   (DailyPlanEntry.mk 11 100 false false false)
                   [DailyPlanEntry.mk 11 99 false false true;
                    DailyPlanEntry.mk 11 98 false false false]
                   eq_refl eq_refl eq_refl) _ eq_refl).
  intros H. discriminate H.
Defined.

Lemma consecutive_all {A} (ok : A → bool) l :
  consecutive ok l = length l ↔ Forall (λ x, ok x = true) l.
Proof.
  induction l as [|x l IH]; simpl; [by split|].
  pose proof (consecutive_le_length ok l).
  destruct (ok x) eqn:Hx; split.
  - intros [= Hl]. constructor; [done|]. by apply IH.
  - intros [_ Hl]%Forall_cons. f_equal. by apply IH.
  - lia.
  - intros [? _]%Forall_cons. congruence.
Qed.

(** X6. A streak is as long as the loaded window exactly when every loaded
    day is a good one. *)
Theorem full_streak_iff_all_good today u db plan :
  latest_plan db (User.id u) = Some plan →
  let entries := entries_up_to db (UserPlan.id plan) today in
  let r := streaks_of (calculate_streaks today (Some u) db) in
  (workout r = Z.of_nat (length entries)
   ↔ Forall (λ e, is_success_w e = true) entries)
  ∧ (diet r = Z.of_nat (length entries)
     ↔ Forall (λ e, DailyPlanEntry.is_diet_completed e = true) entries).
Proof.
  intros Hp. cbn zeta.
  destruct (entries_up_to db (UserPlan.id plan) today) as [|e es] eqn:He.
  { unfold calculate_streaks. rewrite Hp. cbn zeta. rewrite He. cbn.
    split; split; auto. }
  rewrite (calculate_streaks_full _ _ _ _ _ _ Hp He). cbn [workout diet].
  pose proof (consecutive_all is_success_w es) as Aw.
  pose proof (consecutive_all DailyPlanEntry.is_diet_completed es) as Ad.
  pose proof (consecutive_le_length is_success_w es).
  pose proof (consecutive_le_length DailyPlanEntry.is_diet_completed es).
  destruct (decide (DailyPlanEntry.date e = today)) as [Hd|Hd].
  - rewrite scan_streaks_today by done. cbn [fst snd]. rewrite !Forall_cons, length_cons.
    split.
    + destruct (is_success_w e); [|split; [lia|intros [? _]; done]].
      rewrite <- Aw. split; [intros; split; [done|lia]|intros [_ ->]; lia].
    + destruct (DailyPlanEntry.is_diet_completed e); [|split; [lia|intros [? _]; done]].
      rewrite <- Ad. split; [intros; split; [done|lia]|intros [_ ->]; lia].
  - rewrite scan_streaks_past by done. cbn [fst snd].
    rewrite <- !consecutive_all. split; split; intros; lia.
Qed.

Lemma full_streak_iff_all_good_example :
  workout (streaks_of (calculate_streaks 100 (Some ex_user) ex_db_diet)) = 3.
Proof.
  apply (proj1 (full_streak_iff_all_good 100 ex_user ex_db_diet
                  (UserPlan.mk 11 1 600) eq_refl)).
  repeat constructor.
Defined.

(** ** What the two queries select *)

Lemma merge_sort_head {A} (R : relation A) `{!RelDecision R}
    `{!Transitive R} `{!Total R} l x l' :
  merge_sort R l = x :: l' → x ∈ l ∧ ∀ y, y ∈ l → R x y.
Proof.
  intros Hs. pose proof (merge_sort_Permutation R l) as Hperm.
  pose proof (StronglySorted_merge_sort R l) as Hsorted.
  rewrite Hs in Hperm, Hsorted. split.
  - rewrite <- Hperm. by left.
  - intros y Hy. rewrite <- Hperm in Hy.
    apply elem_of_cons in Hy as [->|Hy].
    + destruct (total R x x); done.
    + apply StronglySorted_inv in Hsorted as [_ Hall].
      rewrite Forall_forall in Hall. by apply Hall.
Qed.

Lemma merge_sort_nil {A} (R : relation A) `{!RelDecision R} l :
  merge_sort R l = [] ↔ l = [].
Proof.
  split; [|by intros ->].
  intros Hs. pose proof (merge_sort_Permutation R l) as Hperm.
  rewrite Hs in Hperm. by apply Permutation_nil_l in Hperm.
Qed.

#[local] Instance newer_plan_total : Total newer_plan.
Proof. intros p q. unfold newer_plan. lia. Qed.
#[local] Instance newer_plan_trans : Transitive newer_plan.
Proof. intros p q r. unfold newer_plan. lia. Qed.
#[local] Instance newer_entry_total : Total newer_entry.
Proof. intros p q. unfold newer_entry. lia. Qed.
#[local] Instance newer_entry_trans : Transitive newer_entry.
Proof. intros p q r. unfold newer_entry. lia. Qed.

(** X7. The plan used is one of the user's own, and none of the user's plans
    was created later; no plan is used exactly when the user has none. *)
Theorem latest_plan_is_latest db uid :
  match latest_plan db uid with
  | Some plan =>
      plan ∈ plan_table db ∧ UserPlan.user_id plan = uid
      ∧ ∀ q, q ∈ plan_table db → UserPlan.user_id q = uid →
             UserPlan.created_at q ≤ UserPlan.created_at plan
  | None => ∀ q, q ∈ plan_table db → UserPlan.user_id q ≠ uid
  end.
Proof.
  unfold latest_plan.
  destruct (merge_sort newer_plan _) as [|plan l'] eqn:Hs; cbn [head].
  - apply merge_sort_nil in Hs. intros q Hq Hu.
    assert (q ∈ filter (λ p, UserPlan.user_id p = uid) (plan_table db)) as Hin
      by (apply list_elem_of_filter; done).
    rewrite Hs in Hin. by apply elem_of_nil in Hin.
  - apply merge_sort_head in Hs as [Hin Hmax]; [|apply _..].
    apply list_elem_of_filter in Hin as [Hu Hin].
    split; [done|]. split; [done|].
    intros q Hq Hqu. apply (Hmax q). by apply list_elem_of_filter.
Qed.

(** X8. Today's entry is found whenever the plan has one, wherever it stands
    in the table. *)
Theorem today_entry_is_found db pid today :
  newest_is_today today (entries_up_to db pid today) = true
  ↔ ∃ e, e ∈ entry_table db ∧ DailyPlanEntry.plan_id e = pid
         ∧ DailyPlanEntry.date e = today.
Proof.
  unfold newest_is_today.
  destruct (entries_up_to db pid today) as [|first_entry older] eqn:He.
  - split; [done|]. intros (e & Hin & Hp & Hd).
    assert (e ∈ entries_up_to db pid today) as Hin'
      by (apply entries_up_to_elem; split; [done|]; split; [done|lia]).
    rewrite He in Hin'. by apply elem_of_nil in Hin'.
  - assert (first_entry ∈ entries_up_to db pid today) as Hfirst
      by (rewrite He; by left).
    apply entries_up_to_elem in Hfirst as (Hin & Hp & Hle).
    rewrite bool_decide_eq_true. split.
    + intros Hd. by exists first_entry.
    + intros (e & Hin' & Hp' & Hd').
      unfold entries_up_to in He.
      apply merge_sort_head in He as [_ Hmax]; [|apply _..].
      specialize (Hmax e). unfold newer_entry in Hmax.
      assert (DailyPlanEntry.date e ≤ DailyPlanEntry.date first_entry); [|lia].
      apply Hmax, list_elem_of_filter. split; [|done]. split; [done|lia].
Qed.

(** X9. Entries that do not qualify are invisible: a row of another plan, or
    dated after today, may stand anywhere in the table without changing
    what a call returns or stores on the user object. *)
Theorem unqualified_entry_is_ignored today user users plans before after n e :
  (today < DailyPlanEntry.date e
   ∨ ∀ u plan, user = Some u →
       latest_plan (mkDb users plans (before ++ after) n) (User.id u) = Some plan →
       DailyPlanEntry.plan_id e ≠ UserPlan.id plan) →
  let r := calculate_streaks today user (mkDb users plans (before ++ after) n) in
  let r' := calculate_streaks today user (mkDb users plans (before ++ e :: after) n) in
  streaks_of r' = streaks_of r ∧ user_after r' = user_after r.
Proof.
  intros Hout. destruct user as [u|]; [|done].
  unfold calculate_streaks.
  change (latest_plan (mkDb users plans (before ++ e :: after) n) (User.id u))
    with (latest_plan (mkDb users plans (before ++ after) n) (User.id u)).
  destruct (latest_plan _ (User.id u)) as [plan|] eqn:Hp; [|done]. cbn zeta.
  assert (entries_up_to (mkDb users plans (before ++ e :: after) n) (UserPlan.id plan) today
          = entries_up_to (mkDb users plans (before ++ after) n) (UserPlan.id plan) today)
    as ->.
  { unfold entries_up_to. cbn [entry_table]. f_equal.
    rewrite !filter_app, filter_cons. rewrite decide_False; [done|].
    intros [Hplan Hdate]. destruct Hout as [?|Hout]; [lia|].
    by apply (Hout u plan). }
  destruct (entries_up_to _ _ _) as [|first_entry older]; [done|].
  destruct (scan_streaks _ _ _) as [w d]. case_bool_decide; done.
Qed.

(** Tomorrow's entry, already in the table, changes nothing today. *)
Lemma unqualified_entry_is_ignored_example :
  streaks_of (calculate_streaks 100 (Some ex_user)
                (mkDb {[ 1 := ex_user ]} [UserPlan.mk 11 1 600]
                   ([DailyPlanEntry.mk 11 100 false false false]
                    ++ DailyPlanEntry.mk 11 101 true false false
                    :: [DailyPlanEntry.mk 11 99 false false true;
                        DailyPlanEntry.mk 11 98 false false false]) 0))
  = mkStreaks 3 1.
Proof.
  rewrite (proj1 (unqualified_entry_is_ignored 100 (Some ex_user)
                    {[ 1 := ex_user ]} [UserPlan.mk 11 1 600]
                    [DailyPlanEntry.mk 11 100 false false false]
                    [DailyPlanEntry.mk 11 99 false false true;
                     DailyPlanEntry.mk 11 98 false false false] 0
                    (DailyPlanEntry.mk 11 101 true false false)
                    (or_introl eq_refl))).
  reflexivity.
Defined.

(** ** The wrapper *)

(** X10. An unknown user id gives 0 and 0 and no write. *)
Theorem compute_streaks_unknown_user today user_id plan_id db :
  user_table db !! user_id = None →
  compute_streaks today user_id plan_id db = (no_streaks, None, db).
Proof. intros Hu. unfold compute_streaks, user_get. by rewrite Hu. Qed.

Lemma compute_streaks_unknown_user_example :
  compute_streaks 100 2 11 ex_db_workout = (mkStreaks 0 0, None, ex_db_workout).
Proof. apply compute_streaks_unknown_user. reflexivity. Defined.

(** A second call on what a first call left changes nothing. *)
Lemma calculate_streaks_twice today user db :
  let r1 := calculate_streaks today user db in
  calculate_streaks today (user_after r1) (db_after r1)
  = (streaks_of r1, user_after r1, db_after r1).
Proof.
  destruct user as [u|]; [|done].
  destruct (latest_plan db (User.id u)) as [plan|] eqn:Hp.
  2:{ unfold calculate_streaks. rewrite Hp. cbn. by rewrite Hp. }
  destruct (entries_up_to db (UserPlan.id plan) today) as [|e es] eqn:He.
  { unfold calculate_streaks. rewrite Hp. cbn zeta. rewrite He. cbn.
    by rewrite Hp, He. }
  cbn zeta. rewrite (calculate_streaks_unfold _ _ _ _ _ _ Hp He). cbn zeta.
  case_bool_decide as Hne; cbn [streaks_of user_after db_after fst snd].
  - rewrite (calculate_streaks_unfold _ _ (commit_user _ db) plan e es) by done.
    cbn zeta. rewrite bool_decide_eq_false_2; [done|]. cbn. intros [?|?]; done.
  - rewrite (calculate_streaks_unfold _ _ _ _ _ _ Hp He). cbn zeta.
    by rewrite bool_decide_eq_false_2.
Qed.

(** X11. Through the wrapper too: with the user row filed under its own id, a
    second [compute_streaks], whatever plan ids are passed, returns the
    counts of the first and commits nothing. *)
Theorem compute_streaks_twice today user_id p1 p2 db u :
  user_table db !! user_id = Some u → User.id u = user_id →
  let r1 := compute_streaks today user_id p1 db in
  let r2 := compute_streaks today user_id p2 (db_after r1) in
  streaks_of r2 = streaks_of r1 ∧ db_after r2 = db_after r1.
Proof.
  intros Hu Hid. cbn zeta. unfold compute_streaks, user_get. rewrite Hu.
  assert (user_table (db_after (calculate_streaks today (Some u) db)) !! user_id
          = user_after (calculate_streaks today (Some u) db)) as ->.
  { destruct (calculate_streaks_shape today (Some u) db)
      as [[Hua Hda]|(u0 & [= <-] & Hua & Hda)]; cbn zeta in *; rewrite Hua, Hda.
    - done.
    - cbn. rewrite <- Hid. apply lookup_insert_eq. }
  rewrite calculate_streaks_twice. done.
Qed.

Lemma compute_streaks_twice_example :
  let r1 := compute_streaks 100 1 10 ex_db_workout in
  let r2 := compute_streaks 100 1 11 (db_after r1) in
  streaks_of r2 = streaks_of r1 ∧ db_after r2 = db_after r1.
Proof.
  apply (compute_streaks_twice 100 1 10 11 ex_db_workout ex_user); reflexivity.
Defined.

(** * Further properties of the estimator *)

(** X12. The estimate is 0 (nothing to change, or a weight missing) or at least
    a week: never 1 to 6 days. *)
Theorem estimate_zero_or_a_week lower weight target goal n :
  estimate_transformation_days lower weight target goal = Returns n →
  (n = 0 ∧ (weight = None ∨ target = None
            ∨ ∃ w t, weight = Some w ∧ target = Some t
                     ∧ (abs (t - w) <? 0.1)%float = true))
  ∨ 7 ≤ n.
Proof.
  unfold estimate_transformation_days.
  destruct weight as [w|], target as [t|]; try (intros [= <-]; left; by auto).
  destruct (abs (t - w) <? 0.1)%float eqn:Hkg.
  - intros [= <-]. left. split; [done|]. right. right. by exists w, t.
  - destruct (int_of_float _) as [k|]; [|done]. intros [= <-]. right. lia.
Qed.

Lemma estimate_zero_or_a_week_example : 7 ≤ 127.
Proof.
  destruct (estimate_zero_or_a_week str_lower (Some 80%float) (Some 70%float)
              (Some "fat_loss") 127 eq_refl) as [[H _]|H];
    [discriminate H|exact H].
Defined.

(** ** Gaining and losing are estimated alike *)

Lemma SFabs_binary_round_aux s s' m e l :
  SFabs (binary_round_aux prec emax s m e l)
  = SFabs (binary_round_aux prec emax s' m e l).
Proof.
  unfold binary_round_aux.
  destruct (shr_fexp prec emax m e l) as [mrs e'].
  destruct (shr_fexp prec emax _ e' loc_Exact) as [mrs' e''].
  destruct (shr_m mrs'); [done| |done]. by destruct (_ <=? _).
Qed.

Lemma SFabs_binary_normalize_opp z e :
  SFabs (binary_normalize prec emax (- z) e false)
  = SFabs (binary_normalize prec emax z e false).
Proof.
  destruct z as [|p|p]; [done|..]; simpl; unfold binary_round;
    destruct (shl_align _ _ _); apply SFabs_binary_round_aux.
Qed.

Lemma SFabs_SFsub a b : SFabs (SF64sub a b) = SFabs (SF64sub b a).
Proof.
  unfold SF64sub.
  destruct a as [[]|[]| |sa ma ea], b as [[]|[]| |sb mb eb]; try done.
  cbn [SFsub]. rewrite (Z.min_comm eb ea).
  rewrite <- SFabs_binary_normalize_opp. do 2 f_equal. lia.
Qed.

Lemma abs_sub_swap w t : abs (t - w) = abs (w - t).
Proof. apply Prim2SF_inj. rewrite !abs_spec, !sub_spec. apply SFabs_SFsub. Qed.

(** X13. Swapping the current and the target weight changes nothing: the same
    days, or the same exception. *)
Theorem estimate_symmetric lower weight target goal :
  estimate_transformation_days lower weight target goal
  = estimate_transformation_days lower target weight goal.
Proof.
  destruct weight as [w|], target as [t|]; try done.
  unfold estimate_transformation_days. by rewrite (abs_sub_swap w t).
Qed.

(** ** A slower weekly rate never shortens the estimate *)

Lemma SFdiv_mono_both a b m1 e1 m2 e2 :
  sf_le a b →
  (SF2R (S754_finite false m2 e2) <= SF2R (S754_finite false m1 e1))%R →
  sf_le (SFdiv prec emax a (S754_finite false m1 e1))
        (SFdiv prec emax b (S754_finite false m2 e2)).
Proof.
  intros Hab Hc.
  destruct Hab as [a Ha|a b Ha Hb Hle]; [by apply sf_le_inf, SFdiv_nonneg|].
  destruct a as [[]| | |[] ma ea]; try done.
  { apply sf_le_zero, SFdiv_nonneg. by right. }
  destruct b as [[]| | |[] mb eb]; try done.
  { exfalso. pose proof (SF2R_pos ma ea). simpl in *. lra. }
  cbn [SFdiv xorb].
  destruct (SFdiv_located ma m1 ea e1) as (q1 & e1' & l1 & -> & Hq1 & Hin1 & Hpre1).
  destruct (SFdiv_located mb m2 eb e2) as (q2 & e2' & l2 & -> & Hq2 & Hin2 & Hpre2).
  eapply binary_round_aux_mono; [|done|exact Hin1|done|done|exact Hin2|done].
  pose proof (SF2R_pos m1 e1) as Hp1. pose proof (SF2R_pos m2 e2) as Hp2.
  pose proof (SF2R_pos ma ea) as Hpa.
  apply Rmult_le_compat; [lra| |done|].
  - apply Rlt_le, Rinv_0_lt_compat, Hp1.
  - by apply Rinv_le_contravar.
Qed.

Lemma rate_per_week_order s1 s2 :
  (rate_per_week s1 <=? rate_per_week s2)%float = true →
  ∃ m1 e1 m2 e2,
    Prim2SF (rate_per_week s1) = S754_finite false m1 e1
    ∧ Prim2SF (rate_per_week s2) = S754_finite false m2 e2
    ∧ (SF2R (S754_finite false m1 e1) <= SF2R (S754_finite false m2 e2))%R.
Proof.
  intros Hle.
  destruct (rate_per_week_cases s1) as (m1 & e1 & H1).
  destruct (rate_per_week_cases s2) as (m2 & e2 & H2).
  exists m1, e1, m2, e2. split; [done|]. split; [done|].
  assert (sf_le (Prim2SF (rate_per_week s1)) (Prim2SF (rate_per_week s2))) as Hsf.
  { apply leb_sf_le; [| |done]; right; right.
    - by rewrite H1.
    - by rewrite H2. }
  rewrite H1, H2 in Hsf. by inversion Hsf.
Qed.

(** X14. For the same weights, a goal whose weekly rate is not larger gives an
    estimate that is not smaller: when the slower goal's estimate returns,
    the faster goal's returns too and is at most as long. *)
Theorem slower_rate_takes_longer lower weight target g_slow g_fast n :
  (rate_per_week (lower (default "" g_slow))
   <=? rate_per_week (lower (default "" g_fast)))%float = true →
  estimate_transformation_days lower weight target g_slow = Returns n →
  ∃ n', estimate_transformation_days lower weight target g_fast = Returns n'
        ∧ n' ≤ n.
Proof.
  intros Hrate.
  destruct weight as [w|], target as [t|];
    try (intros [= <-]; by exists 0).
  unfold estimate_transformation_days.
  destruct (abs (t - w) <? 0.1)%float; [intros [= <-]; by exists 0|].
  destruct (rate_per_week_order _ _ Hrate) as (m1 & e1 & m2 & e2 & H1 & H2 & Hle).
  set (r1 := rate_per_week (lower (default "" g_slow))) in *.
  set (r2 := rate_per_week (lower (default "" g_fast))) in *.
  destruct (int_of_float (abs (t - w) / r1 * 7)) as [k1|] eqn:Hk1; [|done].
  intros [= <-].
  assert (sf_le (Prim2SF (abs (t - w) / r2 * 7)) (Prim2SF (abs (t - w) / r1 * 7)))
    as Hp.
  { unfold int_of_float in Hk1. revert Hk1.
    rewrite !mul_spec, !div_spec, H1, H2, Prim2SF_7. unfold SF64mul, SF64div.
    destruct (abs_nan_or_nonneg (t - w)) as [Hnan|Hnn].
    - by rewrite Hnan.
    - intros _. apply SFmul_mono; [done|]. apply SFdiv_mono_both; [|done].
      destruct Hnn as [->|Hf]; [apply sf_le_inf; by left|].
      by apply sf_le_fin. }
  destruct (int_of_float_mono _ _ k1 Hp Hk1) as (k2 & -> & Hk).
  exists (Z.max 7 k2). split; [done|lia].
Qed.

(** Recomposition (0.2 kg a week) against fat loss (0.55 kg a week), from
    80 kg to 70 kg: 350 days against at most as many. *)
Lemma slower_rate_takes_longer_example :
  ∃ n', estimate_transformation_days str_lower (Some 80%float) (Some 70%float)
          (Some "fat_loss") = Returns n'
        ∧ n' ≤ 350.
Proof.
  apply (slower_rate_takes_longer str_lower (Some 80%float) (Some 70%float)
           (Some "recomp") (Some "fat_loss") 350);
    reflexivity.
Defined.

(** ** No exception on any weight change up to 1e306 kg *)

Lemma int_of_float_bound r :
  r = 0.55%float ∨ r = 0.3%float ∨ r = 0.2%float ∨ r = 0.4%float →
  ∃ n, int_of_float (1e306 / r * 7) = Returns n.
Proof. intros [->|[->|[->| ->]]]; eexists; vm_compute; reflexivity. Qed.

Lemma rate_per_week_values s :
  rate_per_week s = 0.55%float ∨ rate_per_week s = 0.3%float
  ∨ rate_per_week s = 0.2%float ∨ rate_per_week s = 0.4%float.
Proof. unfold rate_per_week. repeat case_bool_decide; auto. Qed.

(** X15. The estimator raises only on a NaN or on a change beyond any weight:
    whenever [abs (target - weight)] is a number up to 1e306 it returns. *)
Theorem estimate_returns lower w t goal :
  (abs (t - w) <=? 1e306)%float = true →
  ∃ n, estimate_transformation_days lower (Some w) (Some t) goal = Returns n.
Proof.
  intros Hle. unfold estimate_transformation_days.
  destruct (abs (t - w) <? 0.1)%float; [by eexists|].
  set (r := rate_per_week (lower (default "" goal))).
  destruct (rate_per_week_cases (lower (default "" goal))) as (m & e & Hr).
  destruct (int_of_float_bound r (rate_per_week_values _)) as [nb Hb].
  assert (sf_le (Prim2SF (abs (t - w))) (Prim2SF 1e306)) as Hkg.
  { apply leb_sf_le; [apply abs_nan_or_nonneg| |done]. right. right. done. }
  pose proof (product_mono _ _ r m e Hr Hkg) as Hp.
  destruct (int_of_float_mono _ _ nb Hp Hb) as (k & -> & _). by eexists.
Qed.

Lemma estimate_returns_example :
  ∃ n, estimate_transformation_days str_lower (Some 80%float) (Some 70%float)
         (Some "bulk") = Returns n.
Proof.
  apply (estimate_returns str_lower 80%float 70%float (Some "bulk")).
  reflexivity.
Defined.

(** * Properties of the routes of [routes/core.py] *)

(** X16. The intro is shown once: whatever the session held, after one visit of
    the index the next visit renders the index page and leaves the session
    as it is; the first visit touches no key but ["intro_shown"]. *)
Theorem intro_is_shown_once session :
  let r1 := index session in
  let r2 := index r1.2 in
  r2 = (Render "index.html", r1.2)
  ∧ (∀ k, k ≠ "intro_shown" → r1.2 !! k = session !! k)
  ∧ (r1.1 = Redirect "core.intro" ∨ r1 = (Render "index.html", session)).
Proof.
  unfold index.
  destruct (from_option truthy false (session !! "intro_shown")) eqn:Hs; cbn.
  - rewrite Hs. cbn. auto.
  - rewrite lookup_insert_eq. cbn. split; [done|]. split; [|by left].
    intros k Hk. by apply lookup_insert_ne.
Qed.

(** X17. A post without a weight, with an empty one, or with one that is no
    number writes nothing: the first two redirect to the progress page,
    the last ends in [ValueError]. *)
Theorem update_progress_without_weight py_float now uid form db :
  (form !! "weight" = None ∨ form !! "weight" = Some "" →
     update_progress py_float now uid form db
     = (Returns (Redirect "core.progress_page"), db))
  ∧ (∀ w, form !! "weight" = Some w → w ≠ "" → py_float w = None →
     update_progress py_float now uid form db = (Raises ValueError, db)).
Proof.
  unfold update_progress. split.
  - intros [-> | ->]; done.
  - intros w -> Hw ->. by rewrite bool_decide_eq_false_2.
Qed.

Lemma update_progress_without_weight_example :
  update_progress ex_py_float 19002 1 {[ "weight" := "" ]} ex_core_db
  = (Returns (Redirect "core.progress_page"), ex_core_db)
  ∧ update_progress ex_py_float 19002 1 {[ "weight" := "heavy" ]} ex_core_db
    = (Raises ValueError, ex_core_db).
Proof.
  split.
  - apply (proj1 (update_progress_without_weight ex_py_float 19002 1
                    {[ "weight" := "" ]} ex_core_db)).
    right. reflexivity.
  - apply (proj2 (update_progress_without_weight ex_py_float 19002 1
                    {[ "weight" := "heavy" ]} ex_core_db) "heavy");
      [reflexivity|discriminate|reflexivity].
Defined.

(** X18. Round trip: a posted weight that parses is on the user's progress page
    afterwards, as one more value next to those that were there; one
    commit is made; the hydration and sleep figures, and every other
    user's page, stay as they were. *)
Theorem posted_weight_is_shown py_float strftime now today uid form db w x :
  form !! "weight" = Some w → w ≠ "" → py_float w = Some x →
  let r := update_progress py_float now uid form db in
  let before := progress_page strftime today uid db in
  let after := progress_page strftime today uid r.2 in
  r.1 = Returns (Redirect "core.progress_page")
  ∧ core_commits r.2 = S (core_commits db)
  ∧ progress_values after ≡ₚ x :: progress_values before
  ∧ length (progress_labels after) = S (length (progress_labels before))
  ∧ hydration_current after = hydration_current before
  ∧ sleep_hours after = sleep_hours before
  ∧ sleep_quality after = sleep_quality before
  ∧ ∀ other, other ≠ uid →
      progress_page strftime today other r.2 = progress_page strftime today other db.
Proof.
  intros Hw Hne Hx. unfold update_progress. rewrite Hw, Hx.
  rewrite bool_decide_eq_false_2 by done. cbn zeta. cbn [fst snd].
  split; [done|]. split; [done|].
  unfold progress_page.
  cbn [progress_table water_table sleep_table progress_values progress_labels
       hydration_current sleep_hours sleep_quality].
  rewrite !filter_app, !filter_cons, filter_nil.
  rewrite decide_True by done.
  split; [|split; [|split; [done|split; [done|split; [done|]]]]].
  - rewrite !merge_sort_Permutation.
    rewrite fmap_app. cbn. by rewrite <- Permutation_cons_append.
  - rewrite !length_fmap, !merge_sort_Permutation. rewrite length_app. cbn. lia.
  - intros other Hother.
    rewrite filter_app, filter_cons, filter_nil.
    rewrite decide_False by (cbn; congruence). by rewrite app_nil_r.
Qed.

Lemma posted_weight_is_shown_example :
  let r := update_progress ex_py_float 19002 1 {[ "weight" := "72.5" ]} ex_core_db in
  progress_values (progress_page ex_strftime 19001 1 r.2)
  ≡ₚ 72.5%float :: progress_values (progress_page ex_strftime 19001 1 ex_core_db).
Proof.
  apply (posted_weight_is_shown ex_py_float ex_strftime 19002 19001 1
           {[ "weight" := "72.5" ]} ex_core_db "72.5" 72.5%float);
    [reflexivity|discriminate|reflexivity].
Defined.

#[local] Instance logged_before_total : Total logged_before.
Proof. intros a b. unfold logged_before. lia. Qed.

(** X19. The chart is the user's own history in time order: labels and values
    come, position by position, from one list of logs that holds exactly
    the user's rows, each once, ordered by [logged_at]. *)
Theorem progress_chart_is_chronological strftime today uid db :
  ∃ logs,
    logs ≡ₚ filter (λ l, UserProgress.user_id l = uid) (progress_table db)
    ∧ Sorted logged_before logs
    ∧ progress_values (progress_page strftime today uid db)
      = UserProgress.weight <$> logs
    ∧ progress_labels (progress_page strftime today uid db)
      = (λ l, strftime (UserProgress.logged_at l)) <$> logs.
Proof.
  eexists. split; [apply (merge_sort_Permutation logged_before)|].
  split; [apply (Sorted_merge_sort logged_before)|]. done.
Qed.

Lemma foldl_add_shift (l : list Z) a : foldl Z.add a l = a + foldl Z.add 0 l.
Proof.
  revert a. induction l as [|x l IH]; intros a; simpl; [lia|].
  rewrite (IH (a + x)), (IH (0 + x)). lia.
Qed.

(** X20. Hydration counts the user's logs of today and nothing else: a water
    log, wherever it stands in the table, adds its amount when it is the
    user's and dated today, and nothing otherwise. *)
Theorem hydration_counts_own_logs_of_today strftime today uid progress before after
    sleep n log :
  hydration_current
    (progress_page strftime today uid (mkCoreDb progress (before ++ log :: after) sleep n))
  = hydration_current
      (progress_page strftime today uid (mkCoreDb progress (before ++ after) sleep n))
    + (if bool_decide (WaterLog.user_id log = uid ∧ WaterLog.date log = today)
       then WaterLog.amount_ml log else 0).
Proof.
  unfold progress_page. cbn [water_table hydration_current].
  rewrite !filter_app, filter_cons, !fmap_app, !foldl_app.
  case_bool_decide as Hq.
  - rewrite decide_True by done. rewrite fmap_cons. cbn [foldl].
    rewrite (foldl_add_shift _ (_ + _)), (foldl_add_shift _ (foldl _ _ _)). lia.
  - rewrite decide_False by done. lia.
Qed.
